(** * DCR_Modular: the mapping refinement workflow

    A shallow embedding of the text-processing core of the repository:

    - [llm_backend.py]: [clean_invalid_escapes], [clean_brand_name],
      [call_llm], [call_llm_parallel], [process_llm_response],
      [refinement_prompt_template];
    - [data_processor.py]: the result collection of
      [generate_mappings_for_all_columns],
      [process_feedback_for_all_columns] and the line parser shared with
      [calculate_standardization_stats];
    - [column_analysis_page.py]: [parse_llm_clustering_response].

    A Python [str] is a sequence of Unicode code points, so a string is a
    list of code points ([N]); [py] injects a literal.  The language model,
    [json.loads] and [json.dumps] are collaborators outside the repository
    and are section variables: every theorem holds for whatever they
    answer. *)

From Stdlib Require Import NArith String Ascii Lia.
From stdpp Require Import base list gmap.

Local Open Scope N_scope.

(** ** Python strings *)

Module PyStr.

Definition char := N.
Definition str := list char.

(** A literal: one code point per character of the Rocq string. *)
Definition py (s : string) : str := map N_of_ascii (list_ascii_of_string s).

Definition LF : char := 10.
Definition SPACE : char := 32.
Definition QUOTE : char := 34.
Definition SLASH : char := 47.
Definition EQUALS : char := 61.
Definition LBRACKET : char := 91.
Definition BACKSLASH : char := 92.
Definition RBRACKET : char := 93.
Definition BACKTICK : char := 96.

(** [str.isspace] on one code point; [str.strip()] and the regular
    expression class [\s] on [str] patterns both use this table. *)
Definition isspace (c : char) : bool :=
  ((9 <=? c) && (c <=? 13)) || ((28 <=? c) && (c <=? 32))
  || (c =? 133) || (c =? 160) || (c =? 5760)
  || ((8192 <=? c) && (c <=? 8202))
  || (c =? 8232) || (c =? 8233) || (c =? 8239) || (c =? 8287)
  || (c =? 12288).

(** [s.lstrip()] *)
Fixpoint lstrip (s : str) : str :=
  match s with
  | [] => []
  | c :: s' => if isspace c then lstrip s' else s
  end.

(** [s.rstrip()]: a character is dropped when it is whitespace and only
    whitespace follows it. *)
Fixpoint rstrip (s : str) : str :=
  match s with
  | [] => []
  | c :: s' =>
      match rstrip s' with
      | [] => if isspace c then [] else [c]
      | r => c :: r
      end
  end.

(** [s.strip()] *)
Definition strip (s : str) : str := rstrip (lstrip s).

(** [c in s] for a one-character [c] *)
Definition contains (c : char) (s : str) : bool := existsb (N.eqb c) s.

(** [s.split(sep)] for a one-character separator: always at least one
    field, empty fields kept. *)
Fixpoint split (sep : char) (s : str) : list str :=
  match s with
  | [] => [[]]
  | c :: s' =>
      if c =? sep then [] :: split sep s'
      else match split sep s' with
           | h :: t => (c :: h) :: t
           | [] => [[c]]
           end
  end.

(** [s.split(sep, 1)]: cut at the first separator only. *)
Fixpoint split1 (sep : char) (s : str) : list str :=
  match s with
  | [] => [[]]
  | c :: s' =>
      if c =? sep then [[]; s']
      else match split1 sep s' with
           | h :: t => (c :: h) :: t
           | [] => [[c]]
           end
  end.

(** Truth value of a string: non-empty. *)
Definition truthy (s : str) : bool :=
  match s with [] => false | _ :: _ => true end.

Definition str_eqb (a b : str) : bool := bool_decide (a = b).

(** [x in l] for a list of strings *)
Definition str_in (x : str) (l : list str) : bool := bool_decide (x ∈ l).

End PyStr.

Import PyStr.

(** ** Value canonicalizer ([llm_backend.py]) *)

(** The characters of the look-ahead class of the pattern: backslash,
    slash, double quote and the letters b, f, n, r, t, u. *)
Definition is_escape_char (c : char) : bool :=
  (c =? BACKSLASH) || (c =? SLASH) || (c =? QUOTE)
  || (c =? 98) || (c =? 102) || (c =? 110) || (c =? 114) || (c =? 116)
  || (c =? 117).

(** The negative look-ahead on that class, at the rest of the input: it
    succeeds at the end of the string and before any character outside
    the class. *)
Definition lookahead_invalid (rest : str) : bool :=
  match rest with
  | [] => true
  | d :: _ => negb (is_escape_char d)
  end.

(** [re.sub] of the pattern (one backslash under the negative look-ahead)
    by the template of two backslashes: the look-ahead consumes nothing,
    so every position is tested on its own. *)
Fixpoint clean_invalid_escapes (s : str) : str :=
  match s with
  | [] => []
  | c :: s' =>
      if (c =? BACKSLASH) && lookahead_invalid s'
      then BACKSLASH :: BACKSLASH :: clean_invalid_escapes s'
      else c :: clean_invalid_escapes s'
  end.

(** [re.sub(r'\s+', ' ', s)]; [in_run] tells that the previous character
    belonged to the whitespace run being replaced. *)
Fixpoint collapse_from (in_run : bool) (s : str) : str :=
  match s with
  | [] => []
  | c :: s' =>
      if isspace c
      then (if in_run then collapse_from true s'
            else SPACE :: collapse_from true s')
      else c :: collapse_from false s'
  end.

Definition collapse_whitespace (s : str) : str := collapse_from false s.

(** [clean_brand_name] on a [str] argument (any other value is returned
    as it is by the [isinstance] guard). *)
Definition clean_brand_name (name : str) : str :=
  let name := clean_invalid_escapes name in
  let name := strip (collapse_whitespace name) in
  name.

(** Every backslash of [s] is followed by a character of the look-ahead
    class. *)
Fixpoint escapes_valid (s : str) : bool :=
  match s with
  | [] => true
  | c :: s' =>
      negb ((c =? BACKSLASH) && lookahead_invalid s') && escapes_valid s'
  end.

(** [s] is what [collapse_whitespace] leaves: its only whitespace is
    single spaces; with [after_space], [s] moreover does not start with
    one. *)
Fixpoint collapsed (after_space : bool) (s : str) : bool :=
  match s with
  | [] => true
  | c :: s' =>
      if isspace c
      then (c =? SPACE) && negb after_space && collapsed true s'
      else collapsed false s'
  end.

(** The number of backslashes of [s]. *)
Fixpoint backslashes (s : str) : nat :=
  match s with
  | [] => O
  | c :: s' => if c =? BACKSLASH then S (backslashes s') else backslashes s'
  end.

(** ** Mapping entries and the line parser *)

(** One row of a mapping or of the reviewer's feedback: the dictionary
    with the keys [Brand Name] and [Classified As]. *)
Record mapping_entry := MappingEntry {
  brand_name : str;
  classified_as : str
}.

(** The body of the [for line in lines] loop: what one line appends to
    [mappings]. *)
Definition parse_line (line : str) : list mapping_entry :=
  let line := strip line in
  if contains EQUALS line then
    match split1 EQUALS line with
    | [part0; part1] =>
        let original := strip part0 in
        let canonical := strip part1 in
        if truthy original && truthy canonical
        then [MappingEntry original canonical]
        else []
    | _ => []
    end
  else [].

(** The loop of [process_llm_response], of
    [calculate_standardization_stats] and of the review pages:
    [lines = text.split(LF)], then one [parse_line] per line, appended in
    order. *)
Definition parse_mappings (text : str) : list mapping_entry :=
  fold_left (fun mappings line => mappings ++ parse_line line)
            (split LF text) [].

(** The parser as the specification words it: cut the line at its first
    [=]; a line without [=] is skipped; both sides are trimmed; a line
    with an empty side is skipped. *)
Fixpoint cut_at_first (sep : char) (s : str) : option (str * str) :=
  match s with
  | [] => None
  | c :: s' =>
      if c =? sep then Some ([], s')
      else match cut_at_first sep s' with
           | Some (l, r) => Some (c :: l, r)
           | None => None
           end
  end.

Definition spec_parse_line (line : str) : option mapping_entry :=
  match cut_at_first EQUALS line with
  | None => None
  | Some (lhs, rhs) =>
      match strip lhs, strip rhs with
      | [], _ => None
      | _, [] => None
      | original, canonical => Some (MappingEntry original canonical)
      end
  end.

Definition spec_parse_mapping (text : str) : list mapping_entry :=
  omap spec_parse_line (split LF text).

(** ** Values, exceptions and the collaborators *)

(** What [json.loads] can return.  A number is kept as its literal: the
    code only compares decoded values with column names. *)
#[warnings="-register-all"]
Inductive json :=
| JNull
| JBool (b : bool)
| JNumber (literal : str)
| JString (s : str)
| JList (items : list json)
| JDict (fields : list (str * json)).

(** A computation that returns or raises; the exception is its message,
    [str(e)]. *)
Inductive result (A : Type) :=
| Ok (a : A)
| Raise (e : str).
Arguments Ok {A} a.
Arguments Raise {A} e.

(** The chat model.  [predict n prompt] is what [llm.predict(prompt)]
    answers when it is the request number [n] of the run;
    [invoke column_id prompt] is the content of [llm.invoke(prompt)] for
    the request made on behalf of [column_id] by a worker thread. *)
Record llm_client := LlmClient {
  predict : nat -> str -> result str;
  invoke : str -> str -> result str
}.

(** Sequential code that talks to the model: it threads the list of
    prompts sent so far and may raise. *)
Definition LLM (A : Type) : Type := list str -> result A * list str.

Definition ret {A} (a : A) : LLM A := fun log => (Ok a, log).

Definition bind {A B} (m : LLM A) (k : A -> LLM B) : LLM B :=
  fun log =>
    match m log with
    | (Ok a, log') => k a log'
    | (Raise e, log') => (Raise e, log')
    end.

(** [try: m except Exception as e: handler e] *)
Definition try_except {A} (m : LLM A) (handler : str -> LLM A) : LLM A :=
  fun log =>
    match m log with
    | (Ok a, log') => (Ok a, log')
    | (Raise e, log') => handler e log'
    end.

Notation "'let*' x := m 'in' k" := (bind m (fun x => k))
  (at level 10, x name, m at level 100, k at level 200).

(** One request to the model: the answer, and the prompt recorded. *)
Definition request (client : llm_client) (prompt : str) : LLM str :=
  fun log => (predict client (length log) prompt, log ++ [prompt]).

(** An insertion-ordered dictionary from column ids to texts, as
    [all_column_mappings]: iteration follows the list, assignment to a
    present key keeps its place. *)
Definition dict := list (str * str).

Fixpoint dict_set (k v : str) (d : dict) : dict :=
  match d with
  | [] => [(k, v)]
  | (k', v') :: d' =>
      if str_eqb k' k then (k', v) :: d' else (k', v') :: dict_set k v d'
  end.

Fixpoint dict_get (k : str) (d : dict) : option str :=
  match d with
  | [] => None
  | (k', v') :: d' => if str_eqb k' k then Some v' else dict_get k d'
  end.

Definition dict_keys (d : dict) : list str := map fst d.

(** ** The response processor and the two drivers *)

(** [re.search] of an opening bracket, anything (newlines included,
    greedy), a closing bracket: from the first opening bracket to the
    last closing bracket after it. *)
Fixpoint from_first (c : char) (s : str) : option str :=
  match s with
  | [] => None
  | d :: s' => if d =? c then Some s' else from_first c s'
  end.

Fixpoint upto_last (c : char) (s : str) : option str :=
  match s with
  | [] => None
  | d :: s' =>
      match upto_last c s' with
      | Some u => Some (d :: u)
      | None => if d =? c then Some [d] else None
      end
  end.

Definition search_json_array (s : str) : option str :=
  match from_first LBRACKET s with
  | None => None
  | Some after =>
      match upto_last RBRACKET after with
      | None => None
      | Some inside => Some (LBRACKET :: inside)
      end
  end.

(** [refinement_prompt_template] *)
Definition refinement_prompt_template (prev_classification feedback : str)
  : str :=
  py "
You previously classified brand names as follows:
" ++ prev_classification ++ py "

A human reviewer has suggested the following refinements:
" ++ feedback ++ py "

Your task is to:
- Apply the human feedback carefully to improve classification.
- Update the brand name mappings based on the human feedback provided.
- you may also apply the same change (or a consistent pattern) to other brand names that are: Lexically similar or 
  Follow a similar naming pattern
- Ensure all brand names are still classified under a canonical name from the list.

CRITICAL REQUIREMENTS:
- You MUST return exactly the same number of mappings as the previous classification.
- Every input brand name must appear exactly once in the output.
- Use format: original_name=canonical_name
- One mapping per line
- No extra text or formatting
- Do not add extra mappings or skip any input values.
- Do not invent new brand names not in the original list.

Return the output strictly in the following format:

**Output format**:
GATORADE 5V5=GATORADE
PEPSI MAX=PEPSI
COCA COLA ZERO=COCA COLA".

(** A prepared request of the generation step: the tuple
    [(column_id, initial_prompt, unique_values)] appended to [tasks];
    [unique_values] is the column's Value Set. *)
Record task := Task {
  task_column_id : str;
  task_prompt : str;
  task_unique_values : list str
}.

(** A submitted request with its entry of [future_to_column]; the result
    is the triple returned by [call_llm_parallel], or what
    [future.result()] raises. *)
Record future := Future {
  future_column_id : str;
  future_unique_values : list str;
  future_result : result (str * option str * option str)
}.

(** Truth value of the [error] slot: [None] and the empty string are
    false. *)
Definition error_set (error : option str) : option str :=
  match error with
  | Some (c :: e) => Some (c :: e)
  | _ => None
  end.

Section Pipeline.

(** The module-level [llm] ([None] when the client could not be built),
    [json.loads] ([None] for a decoding error) and [json.dumps] with
    [indent=2]. *)
Variable llm : option llm_client.
Variable json_loads : str -> option json.
Variable json_dumps : list mapping_entry -> str.

(** The order in which [concurrent.futures.as_completed] yields the
    submitted futures. *)
Variable as_completed : list future -> list future.

(** [call_llm] *)
Definition call_llm (prompt : str) : LLM str :=
  match llm with
  | None => ret (py "Error: LLM not initialized")
  | Some client =>
      try_except
        (let* response := request client prompt in
         ret (strip response))
        (fun e => ret (py "Error calling LLM: " ++ e))
  end.

(** [call_llm_parallel]: the token report is printed and not returned. *)
Definition call_llm_parallel (prompt column_id : str)
  : str * option str * option str :=
  match llm with
  | None =>
      (column_id, None, Some (py "'NoneType' object has no attribute 'invoke'"))
  | Some client =>
      match invoke client column_id prompt with
      | Ok content => (column_id, Some content, None)
      | Raise e => (column_id, None, Some e)
      end
  end.

(** The message returned when no line and no JSON array is found. *)
Definition could_not_parse (column_id : str) : str :=
  py "Error: Could not parse response for " ++ column_id
  ++ py ". Expected format: original_name=canonical_name".

(** [process_llm_response].  [output] is [None] when the caller passes
    Python's [None]: [output.strip()] then raises inside the outer [try]
    and the handler returns the message of that exception. *)
Definition process_llm_response (output : option str) (column_id : str)
  : str :=
  match output with
  | None => py "Error: 'NoneType' object has no attribute 'strip'"
  | Some output =>
      let cleaned_output := strip output in
      let mappings := parse_mappings cleaned_output in
      match mappings with
      | _ :: _ => cleaned_output
      | [] =>
          match search_json_array cleaned_output with
          | Some parsed_output =>
              match json_loads parsed_output with
              | Some _ => parsed_output
              | None => could_not_parse column_id
              end
          | None => could_not_parse column_id
          end
      end
  end.

(** *** Initial generation ([generate_mappings_for_all_columns]) *)

(** [executor.submit(call_llm_parallel, prompt, column_id)] with its
    value in [future_to_column]; the worker catches every exception. *)
Definition submit (t : task) : future :=
  Future (task_column_id t) (task_unique_values t)
         (Ok (call_llm_parallel (task_prompt t) (task_column_id t))).

(** The body of the [for future in as_completed(...)] loop. *)
Definition collect (all_column_mappings : dict) (f : future) : dict :=
  let column_id := future_column_id f in
  match future_result f with
  | Ok (_, output, error) =>
      match error_set error with
      | Some error =>
          dict_set column_id (py "Error: " ++ error) all_column_mappings
      | None =>
          let processed_output := process_llm_response output column_id in
          dict_set column_id processed_output all_column_mappings
      end
  | Raise e => dict_set column_id (py "Error: " ++ e) all_column_mappings
  end.

(** [generate_mappings_for_all_columns] from the prepared [tasks] on: the
    guard on [llm], the pool, the collection loop. *)
Definition generate_mappings_for_all_columns (tasks : list task) : dict :=
  match llm with
  | None => []
  | Some _ =>
      match tasks with
      | [] => []
      | _ :: _ => fold_left collect (as_completed (map submit tasks)) []
      end
  end.

(** *** Refinement ([process_feedback_for_all_columns]) *)

(** The body of the [for column_id, mapping_output in ...items()] loop:
    the value assigned to [refined_mappings[column_id]]. *)
Definition refine_column (all_column_feedback : gmap str (list mapping_entry))
    (column_id mapping_output : str) : LLM str :=
  match all_column_feedback !! column_id with
  | Some (entry :: rest) =>
      let feedback_list := entry :: rest in
      let feedback_json := json_dumps feedback_list in
      let refinement_prompt :=
        refinement_prompt_template mapping_output feedback_json in
      try_except
        (let* refined_response := call_llm refinement_prompt in
         let refined_output :=
           process_llm_response (Some refined_response) column_id in
         ret refined_output)
        (fun e => ret mapping_output)
  | _ => ret mapping_output
  end.

Fixpoint refine_items (all_column_feedback : gmap str (list mapping_entry))
    (items : dict) (refined_mappings : dict) : LLM dict :=
  match items with
  | [] => ret refined_mappings
  | (column_id, mapping_output) :: items' =>
      let* v := refine_column all_column_feedback column_id mapping_output in
      refine_items all_column_feedback items'
                   (dict_set column_id v refined_mappings)
  end.

Definition process_feedback_for_all_columns (all_column_mappings : dict)
    (all_column_feedback : gmap str (list mapping_entry)) : LLM dict :=
  refine_items all_column_feedback all_column_mappings [].

End Pipeline.

(** The value that [collect] assigns to the key of a future. *)
Definition collected_value (json_loads : str -> option json) (f : future)
  : str :=
  match future_result f with
  | Ok (_, output, error) =>
      match error_set error with
      | Some error => py "Error: " ++ error
      | None => process_llm_response json_loads output (future_column_id f)
      end
  | Raise e => py "Error: " ++ e
  end.

(** The feedback of a column in this round ([[]] when the key is
    absent), whether there is any, and the prompt built for it. *)
Definition feedback_of (all_column_feedback : gmap str (list mapping_entry))
    (column_id : str) : list mapping_entry :=
  default [] (all_column_feedback !! column_id).

Definition has_feedback (all_column_feedback : gmap str (list mapping_entry))
    (item : str * str) : bool :=
  match feedback_of all_column_feedback item.1 with
  | [] => false
  | _ :: _ => true
  end.

Definition refinement_prompt_of (json_dumps : list mapping_entry -> str)
    (all_column_feedback : gmap str (list mapping_entry)) (item : str * str)
  : str :=
  refinement_prompt_template
    item.2 (json_dumps (feedback_of all_column_feedback item.1)).

(** The original values of a stored mapping text. *)
Definition originals (mapping_output : str) : list str :=
  map brand_name (parse_mappings mapping_output).

(** ** Column clustering ([column_analysis_page.py]) *)

(** One element of [column_info]. *)
Record column_info_entry := ColumnInfo {
  column_name : str;
  filename : str;
  sample_values : list str;
  total_values : nat
}.

(** [s.startswith(p)] *)
Fixpoint starts_with (p s : str) : bool :=
  match p, s with
  | [], _ => true
  | a :: p', b :: s' => (a =? b) && starts_with p' s'
  | _ :: _, [] => false
  end.

(** [p in s] for a substring [p] *)
Fixpoint has_substr (p s : str) : bool :=
  starts_with p s
  || match s with
     | [] => false
     | _ :: s' => has_substr p s'
     end.

(** [s.split(sep)] for a separator of one character or more, scanning
    from the left; [skip] counts the characters of a separator still to
    be passed over, [cur] holds the current field, reversed. *)
Fixpoint split_str_from (sep : str) (skip : nat) (cur : str) (s : str)
  : list str :=
  match s with
  | [] => [rev cur]
  | c :: s' =>
      match skip with
      | S k => split_str_from sep k cur s'
      | O =>
          if starts_with sep s
          then rev cur :: split_str_from sep (length sep - 1) [] s'
          else split_str_from sep 0 (c :: cur) s'
      end
  end.

Definition split_str (sep s : str) : list str := split_str_from sep 0 [] s.

Definition FENCE : str := [BACKTICK; BACKTICK; BACKTICK].
Definition FENCE_JSON : str := FENCE ++ py "json".

(** The first lines of [parse_llm_clustering_response]: trim, then keep
    what stands between the code-fence markers when there are any. *)
Definition strip_code_fences (response : str) : str :=
  let cleaned_response := strip response in
  if has_substr FENCE_JSON cleaned_response then
    default [] (split_str FENCE
                  (default [] (split_str FENCE_JSON cleaned_response !! 1%nat))
                !! 0%nat)
  else if has_substr FENCE cleaned_response then
    default [] (split_str FENCE cleaned_response !! 1%nat)
  else cleaned_response.

(** [set(values)] raises [TypeError] at the first list or dictionary. *)
Fixpoint set_type_error (values : list json) : option str :=
  match values with
  | [] => None
  | JList _ :: _ => Some (py "unhashable type: 'list'")
  | JDict _ :: _ => Some (py "unhashable type: 'dict'")
  | _ :: values' => set_type_error values'
  end.

(** The strings among decoded values: only they can equal a column
    name. *)
Definition names_of (values : list json) : list str :=
  omap (fun v => match v with JString s => Some s | _ => None end) values.

(** [col in actual_column_names] for a decoded value [col] *)
Definition is_actual (actual_column_names : list str) (col : json) : bool :=
  match col with
  | JString s => str_in s actual_column_names
  | _ => false
  end.

Definition singleton_cluster (col : str) : json := JList [JString col].

(** A partition given as lists of names, as a decoded value. *)
Definition clusters_of (groups : list (list str)) : list json :=
  map (fun g => JList (map JString g)) groups.

Section Clustering.

Variable json_loads : str -> option json.

(** [parse_llm_clustering_response].  A Python set is iterated in an
    unspecified order; [missing_columns] is enumerated here in the order
    of [actual_column_names]. *)
Definition parse_llm_clustering_response (response : str)
    (column_info : list column_info_entry) : result (list json) :=
  let cleaned_response := strip_code_fences response in
  match json_loads cleaned_response with
  | None =>
      (* except json.JSONDecodeError *)
      Ok (map (fun info => singleton_cluster (column_name info)) column_info)
  | Some (JList clusters) =>
      let all_columns_in_response :=
        flat_map (fun cluster =>
                    match cluster with JList l => l | _ => [] end) clusters in
      let actual_column_names := map column_name column_info in
      match set_type_error all_columns_in_response with
      | Some e => Raise e
      | None =>
          let missing_columns :=
            list_difference (remove_dups actual_column_names)
                            (names_of all_columns_in_response) in
          let extra_columns :=
            filter (fun col => is_actual actual_column_names col = false)
                   all_columns_in_response in
          let clusters :=
            match missing_columns with
            | _ :: _ => clusters ++ map singleton_cluster missing_columns
            | [] => clusters
            end in
          let clusters :=
            match extra_columns with
            | _ :: _ =>
                map (fun cluster =>
                       match cluster with
                       | JList l =>
                           JList (filter
                                    (fun col =>
                                       is_actual actual_column_names col = true)
                                    l)
                       | other => other
                       end) clusters
            | [] => clusters
            end in
          Ok clusters
      end
  | Some _ => Ok []
  end.

End Clustering.

(** ** A decoder for examples

    [json_loads_fragment] decodes the JSON texts used in the examples
    below as [json.loads] does: whitespace, arrays, objects (kept as the
    list of their members), strings without escape sequences, integers,
    [true], [false] and [null].  Any other text is outside the fragment
    and is answered [None]. *)

Definition COMMA : char := 44.
Definition COLON : char := 58.
Definition LBRACE : char := 123.
Definition RBRACE : char := 125.

Definition json_space (c : char) : bool :=
  (c =? 32) || (c =? 9) || (c =? 10) || (c =? 13).

Fixpoint skip_space (s : str) : str :=
  match s with
  | [] => []
  | c :: s' => if json_space c then skip_space s' else s
  end.

Fixpoint scan_string (s : str) : option (str * str) :=
  match s with
  | [] => None
  | c :: s' =>
      if c =? QUOTE then Some ([], s')
      else if (c =? BACKSLASH) || (c <? 32) then None
      else match scan_string s' with
           | Some (body, rest) => Some (c :: body, rest)
           | None => None
           end
  end.

Definition is_digit (c : char) : bool := (48 <=? c) && (c <=? 57).

Fixpoint scan_digits (s : str) : str * str :=
  match s with
  | [] => ([], [])
  | c :: s' =>
      if is_digit c
      then let '(ds, rest) := scan_digits s' in (c :: ds, rest)
      else ([], s)
  end.

Definition scan_integer (s : str) : option (json * str) :=
  let '(sign, s) :=
    match s with
    | c :: s' => if c =? 45 then ([c], s') else ([], s)
    | [] => ([], s)
    end in
  match scan_digits s with
  | ([], _) => None
  | (d :: ds, rest) =>
      if (d =? 48) && truthy ds then None
      else match rest with
           | c :: _ =>
               if (c =? 46) || (c =? 69) || (c =? 101) then None
               else Some (JNumber (sign ++ d :: ds), rest)
           | [] => Some (JNumber (sign ++ d :: ds), rest)
           end
  end.

Definition scan_word (word : string) (v : json) (s : str)
  : option (json * str) :=
  if starts_with (py word) s
  then Some (v, drop (length (py word)) s)
  else None.

Fixpoint decode_value (fuel : nat) (s : str) : option (json * str) :=
  match fuel with
  | O => None
  | S fuel =>
      match skip_space s with
      | [] => None
      | c :: s' =>
          if c =? QUOTE then
            match scan_string s' with
            | Some (body, rest) => Some (JString body, rest)
            | None => None
            end
          else if c =? LBRACKET then
            match skip_space s' with
            | d :: s'' =>
                if d =? RBRACKET then Some (JList [], s'')
                else decode_items fuel s' []
            | [] => None
            end
          else if c =? LBRACE then
            match skip_space s' with
            | d :: s'' =>
                if d =? RBRACE then Some (JDict [], s'')
                else decode_fields fuel s' []
            | [] => None
            end
          else if c =? 116 then scan_word "true" (JBool true) (c :: s')
          else if c =? 102 then scan_word "false" (JBool false) (c :: s')
          else if c =? 110 then scan_word "null" JNull (c :: s')
          else scan_integer (c :: s')
      end
  end
with decode_items (fuel : nat) (s : str) (acc : list json)
  : option (json * str) :=
  match fuel with
  | O => None
  | S fuel =>
      match decode_value fuel s with
      | Some (v, rest) =>
          match skip_space rest with
          | d :: rest' =>
              if d =? COMMA then decode_items fuel rest' (v :: acc)
              else if d =? RBRACKET then Some (JList (rev (v :: acc)), rest')
              else None
          | [] => None
          end
      | None => None
      end
  end
with decode_fields (fuel : nat) (s : str) (acc : list (str * json))
  : option (json * str) :=
  match fuel with
  | O => None
  | S fuel =>
      match skip_space s with
      | q :: s' =>
          if q =? QUOTE then
            match scan_string s' with
            | Some (key, rest) =>
                match skip_space rest with
                | c :: rest' =>
                    if c =? COLON then
                      match decode_value fuel rest' with
                      | Some (v, rest'') =>
                          match skip_space rest'' with
                          | d :: rest3 =>
                              if d =? COMMA
                              then decode_fields fuel rest3 ((key, v) :: acc)
                              else if d =? RBRACE
                              then Some (JDict (rev ((key, v) :: acc)), rest3)
                              else None
                          | [] => None
                          end
                      | None => None
                      end
                    else None
                | [] => None
                end
            | None => None
            end
          else None
      | [] => None
      end
  end.

Definition json_loads_fragment (s : str) : option json :=
  match decode_value (2 * length s + 2) s with
  | Some (v, rest) =>
      match skip_space rest with
      | [] => Some v
      | _ :: _ => None
      end
  | None => None
  end.

(** ** Data of the examples *)

(** A text between double quotes. *)
Definition quoted (s : string) : str := QUOTE :: py s ++ [QUOTE].

Definition col_brand : str := py "Column Group 1 - brand".
Definition col_maker : str := py "Column Group 1 - maker".
Definition col_label : str := py "Column Group 2 - label".

(** Three prepared requests; the second column's Value Set is A, B. *)
Definition example_tasks : list task :=
  [ Task col_brand (py "prompt for brand") [py "Pepsi"; py "PEPSI"];
    Task col_maker (py "prompt for maker") [py "A"; py "B"];
    Task col_label (py "prompt for label") [py "X"] ].

(** A model whose request for the second column fails in transport and
    which answers the two others. *)
Definition example_client : llm_client :=
  LlmClient
    (fun _ _ => Raise (py "Connection error."))
    (fun column_id _ =>
       if str_eqb column_id col_maker then Raise (py "Connection error.")
       else if str_eqb column_id col_brand
            then Ok (py "Pepsi=Pepsi" ++ [LF] ++ py "PEPSI=Pepsi" ++ [LF])
            else Ok (py "X=X")).

(** A model that answers a mapping of A alone, and one that answers
    prose, to every request. *)
Definition partial_client : llm_client :=
  LlmClient (fun _ _ => Ok (py "A=A")) (fun _ _ => Ok (py "A=A")).

Definition prose_client : llm_client :=
  LlmClient (fun _ _ => Ok (py "I cannot help with that."))
            (fun _ _ => Ok (py "I cannot help with that.")).

(** One reviewed column and one correction for it. *)
Definition example_mappings : dict :=
  [ (col_maker, py "A=A" ++ [LF] ++ py "B=B"); (col_label, py "X=X") ].

Definition example_feedback : gmap str (list mapping_entry) :=
  {[ col_maker := [MappingEntry (py "B") (py "A")] ]}.

(** Three eligible columns and clustering answers. *)
Definition example_columns : list column_info_entry :=
  [ ColumnInfo (py "brand") (py "a.csv") [py "Pepsi"] 1;
    ColumnInfo (py "maker") (py "b.csv") [py "A"] 1;
    ColumnInfo (py "label") (py "b.csv") [py "X"] 1 ].

Definition answer_two_of_three : str :=
  py "[[" ++ quoted "brand" ++ py ", " ++ quoted "maker" ++ py ", "
  ++ quoted "vendor" ++ py "]]".

Definition answer_object : str :=
  py "{" ++ quoted "clusters" ++ py ": [[" ++ quoted "brand" ++ py ", "
  ++ quoted "maker" ++ py "], [" ++ quoted "label" ++ py "]]}".

Definition example_feedback_stray : gmap str (list mapping_entry) :=
  <[ py "Column Group 9 - ghost" := [MappingEntry (py "Q") (py "R")] ]>
    example_feedback.

(** [json.dumps(feedback_list, indent=2)] for entries whose texts need no
    escaping (printable ASCII without double quote and backslash). *)
Definition dump_entry (e : mapping_entry) : str :=
  py "  {" ++ [LF] ++ py "    " ++ quoted "Brand Name" ++ py ": "
  ++ QUOTE :: brand_name e ++ QUOTE :: py "," ++ [LF]
  ++ py "    " ++ quoted "Classified As" ++ py ": "
  ++ QUOTE :: classified_as e ++ [QUOTE] ++ [LF] ++ py "  }".

Fixpoint join_lines (sep : str) (items : list str) : str :=
  match items with
  | [] => []
  | [x] => x
  | x :: rest => x ++ sep ++ join_lines sep rest
  end.

Definition json_dumps_fragment (feedback_list : list mapping_entry) : str :=
  match feedback_list with
  | [] => py "[]"
  | _ :: _ =>
      py "[" ++ [LF]
      ++ join_lines (py "," ++ [LF]) (map dump_entry feedback_list)
      ++ [LF] ++ py "]"
  end.

(** ** Mapping texts, statistics and export *)

(** The line format the prompts ask the model for, one entry per line. *)
Definition mapping_line (e : mapping_entry) : str :=
  brand_name e ++ EQUALS :: classified_as e.

Definition mapping_text (entries : list mapping_entry) : str :=
  join_lines [LF] (map mapping_line entries).

(** A value as the parser returns it: not empty, trimmed, on one line. *)
Definition plain_value (s : str) : Prop :=
  s <> [] /\ strip s = s /\ contains LF s = false.

Definition well_formed_entry (e : mapping_entry) : Prop :=
  plain_value (brand_name e)
  /\ contains EQUALS (brand_name e) = false
  /\ plain_value (classified_as e).

(** [calculate_standardization_stats]: [None] when no pair is parsed.
    The counts are [len(set(...))]; [reduction] is their difference as a
    Python integer.  The fourth field, [reduction_percentage], is a
    rounded float and is left out. *)
Record standardization_stats := Stats {
  original_count : nat;
  standardized_count : nat;
  reduction : Z
}.

Definition calculate_standardization_stats (mapping_output : str)
  : option standardization_stats :=
  match parse_mappings mapping_output with
  | [] => None
  | mappings =>
      let original_values := remove_dups (map brand_name mappings) in
      let standardized_values := remove_dups (map classified_as mappings) in
      Some (Stats (length original_values) (length standardized_values)
                  (Z.of_nat (length original_values)
                   - Z.of_nat (length standardized_values))%Z)
  end.

(** [s.replace(a, b)] for one-character [a] and [b] *)
Definition replace_char (a b : char) (s : str) : str :=
  map (fun c => if c =? a then b else c) s.

Definition HYPHEN : char := 45.
Definition UNDERSCORE : char := 95.

(** The sheet name of a column in the workbook of final mappings
    ([generate_final_output]): three replacements, then the first 31
    characters. *)
Definition safe_sheet_name (column_id : str) : str :=
  take 31
    (replace_char HYPHEN UNDERSCORE
       (replace_char COLON UNDERSCORE
          (replace_char SPACE UNDERSCORE column_id))).

Definition SEPARATOR : str := py " - ".

(** The column id of a task: the group name, the separator, the column
    name ([generate_mappings_for_all_columns]). *)
Definition make_column_id (group_name col : str) : str :=
  group_name ++ SEPARATOR ++ col.

(** The column name that [generate_final_output] reads back from a
    column id. *)
Definition column_name_of (column_id : str) : str :=
  if has_substr SEPARATOR column_id
  then default [] (split_str SEPARATOR column_id !! 1%nat)
  else column_id.

(** [value_mapping] of [generate_final_output]: one assignment per
    entry, in order. *)
Definition value_mapping (mappings : list mapping_entry) : dict :=
  fold_left
    (fun value_mapping item =>
       dict_set (brand_name item) (classified_as item) value_mapping)
    mappings [].

(** One text cell of the standardized column: the value found in
    [value_mapping] ([Series.map]), else the cell itself ([fillna]). *)
Definition standardized_value (mapping_output value : str) : str :=
  match dict_get value (value_mapping (parse_mappings mapping_output)) with
  | Some canonical => canonical
  | None => value
  end.

(** A code fence without its first backtick *)
Definition FENCE_TAIL : str := [BACKTICK; BACKTICK].

(** What an entry of the table of initial generation can be: an error
    text, a trimmed text with pairs, or a bracketed text that decodes. *)
Definition entry_kinds (json_loads : str -> option json) (v : str) : Prop :=
  starts_with (py "Error: ") v = true
  \/ (parse_mappings v <> [] /\ strip v = v)
  \/ (exists decoded inside,
         json_loads v = Some decoded /\ v = LBRACKET :: inside
         /\ last inside = Some RBRACKET).

(** * Properties *)

(** ** Strings *)

Lemma lstrip_no_space s :
  match lstrip s with [] => True | c :: _ => isspace c = false end.
Proof.
  induction s as [|c s IH]; simpl; [done|].
  destruct (isspace c) eqn:E; [exact IH | by rewrite E].
Qed.

Lemma lstrip_id c s : isspace c = false -> lstrip (c :: s) = c :: s.
Proof. intros E. simpl. by rewrite E. Qed.

Lemma rstrip_cons_keep c s :
  isspace c = false -> exists r, rstrip (c :: s) = c :: r.
Proof.
  intros E. simpl. destruct (rstrip s) as [|d r]; rewrite ?E; eauto.
Qed.

Lemma rstrip_idem s : rstrip (rstrip s) = rstrip s.
Proof.
  induction s as [|c s IH]; simpl; [done|].
  destruct (rstrip s) as [|d r] eqn:Er.
  - destruct (isspace c) eqn:E; simpl; [done | by rewrite E].
  - change (rstrip (c :: d :: r)) with
      (match rstrip (d :: r) with
       | [] => if isspace c then [] else [c]
       | r' => c :: r'
       end).
    by rewrite IH.
Qed.

Lemma lstrip_rstrip_lstrip s : lstrip (rstrip (lstrip s)) = rstrip (lstrip s).
Proof.
  pose proof (lstrip_no_space s) as H.
  destruct (lstrip s) as [|c t]; [done|].
  destruct (rstrip_cons_keep c t H) as [r ->]. by apply lstrip_id.
Qed.

Lemma strip_idem s : strip (strip s) = strip s.
Proof.
  unfold strip. by rewrite lstrip_rstrip_lstrip, rstrip_idem.
Qed.

(** ** The canonicalizer *)

Lemma escape_char_not_space c : is_escape_char c = true -> isspace c = false.
Proof.
  unfold is_escape_char. rewrite !orb_true_iff, !N.eqb_eq.
  intros H. repeat destruct H as [H|H]; subst; reflexivity.
Qed.

Lemma lookahead_valid_inv s :
  lookahead_invalid s = false ->
  exists d s', s = d :: s' /\ is_escape_char d = true /\ isspace d = false.
Proof.
  destruct s as [|d s']; simpl; [done|].
  intros H%negb_false_iff. exists d, s'.
  split; [done|]. split; [done|]. by apply escape_char_not_space.
Qed.

Lemma collapse_from_collapsed p s : collapsed p (collapse_from p s) = true.
Proof.
  revert p. induction s as [|c s IH]; intros p; simpl; [done|].
  destruct (isspace c) eqn:E.
  - destruct p; [apply IH|]. simpl. apply IH.
  - simpl. rewrite E. apply IH.
Qed.

Lemma collapsed_fixed p s : collapsed p s = true -> collapse_from p s = s.
Proof.
  revert p. induction s as [|c s IH]; intros p; simpl; [done|].
  destruct (isspace c) eqn:E.
  - rewrite !andb_true_iff, negb_true_iff, N.eqb_eq.
    intros [[-> ->] H]. by rewrite (IH true H).
  - intros H. by rewrite (IH false H).
Qed.

Lemma collapsed_weaken s : collapsed true s = true -> collapsed false s = true.
Proof.
  destruct s as [|c s]; simpl; [done|].
  destruct (isspace c); [|done]. by rewrite andb_false_r.
Qed.

Lemma collapsed_lstrip s :
  collapsed false s = true -> collapsed false (lstrip s) = true.
Proof.
  induction s as [|c s IH]; simpl; [done|].
  destruct (isspace c) eqn:E.
  - rewrite !andb_true_iff. intros [_ H]. by apply IH, collapsed_weaken.
  - intros H. simpl. by rewrite E.
Qed.

Lemma collapsed_rstrip p s :
  collapsed p s = true -> collapsed p (rstrip s) = true.
Proof.
  revert p. induction s as [|c s IH]; intros p; simpl; [done|].
  destruct (rstrip s) as [|d r] eqn:Er.
  - destruct (isspace c) eqn:E; simpl; [done | by rewrite E].
  - change (collapsed p (c :: d :: r)) with
      (if isspace c then (c =? SPACE) && negb p && collapsed true (d :: r)
       else collapsed false (d :: r)).
    destruct (isspace c).
    + rewrite !andb_true_iff. intros [Hc H]. split; [done|]. by apply IH.
    + apply IH.
Qed.

Lemma collapse_strip_fixed s :
  let t := strip (collapse_whitespace s) in
  strip (collapse_whitespace t) = t.
Proof.
  intros t. unfold collapse_whitespace.
  rewrite (collapsed_fixed false t).
  - apply strip_idem.
  - apply collapsed_rstrip, collapsed_lstrip, collapse_from_collapsed.
Qed.

Lemma clean_invalid_escapes_fixed s :
  escapes_valid s = true -> clean_invalid_escapes s = s.
Proof.
  induction s as [|c s IH]; simpl; [done|].
  destruct ((c =? BACKSLASH) && lookahead_invalid s); simpl; [done|].
  intros H. by rewrite IH.
Qed.

Lemma escapes_valid_lstrip s :
  escapes_valid s = true -> escapes_valid (lstrip s) = true.
Proof.
  induction s as [|c s IH]; simpl; [done|].
  destruct (isspace c); [|done].
  rewrite andb_true_iff. intros [_ H]. by apply IH.
Qed.

Lemma lookahead_rstrip s :
  lookahead_invalid s = false -> lookahead_invalid (rstrip s) = false.
Proof.
  intros (d & s' & -> & Hd & Hs)%lookahead_valid_inv.
  destruct (rstrip_cons_keep d s' Hs) as [r ->]. simpl. by rewrite Hd.
Qed.

Lemma lookahead_collapse s :
  lookahead_invalid s = false ->
  lookahead_invalid (collapse_from false s) = false.
Proof.
  intros (d & s' & -> & Hd & Hs)%lookahead_valid_inv.
  simpl. rewrite Hs. simpl. by rewrite Hd.
Qed.

Lemma escapes_valid_rstrip s :
  escapes_valid s = true -> escapes_valid (rstrip s) = true.
Proof.
  induction s as [|c s IH]; simpl; [done|].
  rewrite andb_true_iff, negb_true_iff. intros [Hc Hs].
  specialize (IH Hs).
  assert (Hc' : (c =? BACKSLASH) && lookahead_invalid (rstrip s) = false).
  { destruct (c =? BACKSLASH); [|done]. simpl in *. by apply lookahead_rstrip. }
  destruct (rstrip s) as [|d r] eqn:Er.
  - destruct (isspace c); [done|]. simpl. simpl in Hc'. by rewrite Hc'.
  - change (escapes_valid (c :: d :: r)) with
      (negb ((c =? BACKSLASH) && lookahead_invalid (d :: r))
       && escapes_valid (d :: r)).
    by rewrite Hc', IH.
Qed.

Lemma escapes_valid_collapse p s :
  escapes_valid s = true -> escapes_valid (collapse_from p s) = true.
Proof.
  revert p. induction s as [|c s IH]; intros p; simpl; [done|].
  rewrite andb_true_iff, negb_true_iff. intros [Hc Hs].
  destruct (isspace c) eqn:E.
  - destruct p; [by apply IH|]. simpl. by apply IH.
  - simpl. rewrite (IH false Hs), andb_true_r, negb_true_iff.
    destruct (c =? BACKSLASH); [|done]. simpl in *. by apply lookahead_collapse.
Qed.

Lemma backslash_not_space c : (c =? BACKSLASH) = true -> isspace c = false.
Proof. by intros ->%N.eqb_eq. Qed.

Lemma space_not_backslash c : isspace c = true -> (c =? BACKSLASH) = false.
Proof.
  intros Hc. destruct (c =? BACKSLASH) eqn:E; [|done].
  by rewrite (backslash_not_space c E) in Hc.
Qed.

Lemma space_not_escape c : isspace c = true -> is_escape_char c = false.
Proof.
  intros Hc. destruct (is_escape_char c) eqn:E; [|done].
  by rewrite (escape_char_not_space c E) in Hc.
Qed.

(** Cleaning never removes a backslash, and the replacement adds one for
    every backslash it matches. *)
Lemma backslashes_collapse p s :
  backslashes (collapse_from p s) = backslashes s.
Proof.
  revert p. induction s as [|c s IH]; intros p; simpl; [done|].
  destruct (isspace c) eqn:E.
  - rewrite (space_not_backslash c E).
    destruct p; simpl; by rewrite IH.
  - simpl. by rewrite IH.
Qed.

Lemma backslashes_lstrip s : backslashes (lstrip s) = backslashes s.
Proof.
  induction s as [|c s IH]; simpl; [done|].
  destruct (isspace c) eqn:E; [|done].
  by rewrite (space_not_backslash c E).
Qed.

Lemma backslashes_rstrip s : backslashes (rstrip s) = backslashes s.
Proof.
  induction s as [|c s IH]; simpl; [done|].
  rewrite <- IH. destruct (rstrip s) as [|d r].
  - destruct (isspace c) eqn:E; [|done].
    by rewrite (space_not_backslash c E).
  - done.
Qed.

Lemma backslashes_clean_ge s :
  (backslashes s <= backslashes (clean_invalid_escapes s))%nat.
Proof.
  induction s as [|c s IH]; simpl; [done|].
  destruct (c =? BACKSLASH) eqn:E; simpl.
  - destruct (lookahead_invalid s); simpl; rewrite ?E; lia.
  - by rewrite E.
Qed.

Lemma backslashes_clean_gt s :
  escapes_valid s = false ->
  (backslashes s < backslashes (clean_invalid_escapes s))%nat.
Proof.
  induction s as [|c s IH]; simpl; [done|].
  pose proof (backslashes_clean_ge s) as Hge.
  destruct (c =? BACKSLASH) eqn:E; simpl.
  - destruct (lookahead_invalid s); simpl; [lia|].
    intros H. rewrite E. specialize (IH H). lia.
  - rewrite E. intros H. by apply IH.
Qed.

(** A backslash that is not followed by a character of the class is
    still there, and still not followed by one, after each step. *)
Lemma lookahead_clean s :
  lookahead_invalid (clean_invalid_escapes s) = lookahead_invalid s.
Proof.
  destruct s as [|c s]; simpl; [done|].
  destruct ((c =? BACKSLASH) && lookahead_invalid s) eqn:E; [|done].
  apply andb_true_iff in E as [->%N.eqb_eq _]. done.
Qed.

Lemma invalid_clean s :
  escapes_valid s = false -> escapes_valid (clean_invalid_escapes s) = false.
Proof.
  induction s as [|c s IH]; simpl; [done|].
  destruct ((c =? BACKSLASH) && lookahead_invalid s) eqn:E; simpl.
  - intros _. apply andb_true_iff in E as [_ E].
    by rewrite lookahead_clean, E.
  - intros H. by rewrite IH, andb_false_r.
Qed.

Lemma lookahead_invalid_collapse s :
  lookahead_invalid s = true ->
  lookahead_invalid (collapse_from false s) = true.
Proof.
  destruct s as [|d s]; simpl; [done|].
  destruct (isspace d) eqn:E; simpl; [done|]. done.
Qed.

Lemma invalid_collapse p s :
  escapes_valid s = false -> escapes_valid (collapse_from p s) = false.
Proof.
  revert p. induction s as [|c s IH]; intros p; simpl; [done|].
  destruct (isspace c) eqn:E.
  - rewrite (space_not_backslash c E). simpl. intros H.
    destruct p; simpl; by apply IH.
  - simpl. destruct ((c =? BACKSLASH) && lookahead_invalid s) eqn:Ec; simpl.
    + intros _. apply andb_true_iff in Ec as [-> El].
      by rewrite (lookahead_invalid_collapse s El).
    + intros H. by rewrite (IH false H), andb_false_r.
Qed.

Lemma invalid_lstrip s :
  escapes_valid s = false -> escapes_valid (lstrip s) = false.
Proof.
  induction s as [|c s IH]; simpl; [done|].
  destruct (isspace c) eqn:E; [|done].
  by rewrite (space_not_backslash c E).
Qed.

Lemma lookahead_invalid_rstrip s :
  lookahead_invalid s = true -> lookahead_invalid (rstrip s) = true.
Proof.
  destruct s as [|d s]; simpl; [done|].
  destruct (rstrip s); [|done].
  destruct (isspace d) eqn:E; simpl; done.
Qed.

Lemma invalid_rstrip s :
  escapes_valid s = false -> escapes_valid (rstrip s) = false.
Proof.
  induction s as [|c s IH]; simpl; [done|].
  destruct ((c =? BACKSLASH) && lookahead_invalid s) eqn:Ec; simpl.
  - intros _. apply andb_true_iff in Ec as [Ec El].
    pose proof (lookahead_invalid_rstrip s El) as Hr.
    destruct (rstrip s) as [|d r].
    + rewrite (backslash_not_space c Ec). simpl. by rewrite Ec.
    + change (escapes_valid (c :: d :: r)) with
        (negb ((c =? BACKSLASH) && lookahead_invalid (d :: r))
         && escapes_valid (d :: r)).
      by rewrite Ec, Hr.
  - intros H. specialize (IH H). destruct (rstrip s) as [|d r]; [done|].
    change (escapes_valid (c :: d :: r)) with
      (negb ((c =? BACKSLASH) && lookahead_invalid (d :: r))
       && escapes_valid (d :: r)).
    by rewrite IH, andb_false_r.
Qed.

Lemma backslashes_clean_brand_name s :
  backslashes (clean_brand_name s) = backslashes (clean_invalid_escapes s).
Proof.
  unfold clean_brand_name, strip, collapse_whitespace.
  by rewrite backslashes_rstrip, backslashes_lstrip, backslashes_collapse.
Qed.

Lemma invalid_clean_brand_name s :
  escapes_valid s = false -> escapes_valid (clean_brand_name s) = false.
Proof.
  intros H. unfold clean_brand_name, strip, collapse_whitespace.
  by apply invalid_rstrip, invalid_lstrip, invalid_collapse, invalid_clean.
Qed.

Lemma clean_brand_name_fixed_valid (x : str) :
  escapes_valid x = true ->
  clean_brand_name (clean_brand_name x) = clean_brand_name x.
Proof.
  intros Hx. unfold clean_brand_name.
  rewrite (clean_invalid_escapes_fixed x Hx).
  rewrite clean_invalid_escapes_fixed.
  - apply collapse_strip_fixed.
  - by apply escapes_valid_rstrip, escapes_valid_lstrip, escapes_valid_collapse.
Qed.

(** C2 (code bug): the canonicalizer is not idempotent.  Cleaning twice
    is cleaning once only on the strings whose backslashes are all
    followed by a character of the look-ahead class (backslash, slash,
    double quote, b, f, n, r, t, u), among them every string without a
    backslash; on every other string, that is whenever the first pass
    doubles a backslash, the second pass doubles a backslash again. *)
Theorem clean_brand_name_idempotent_iff (x : str) :
  clean_brand_name (clean_brand_name x) = clean_brand_name x
  <-> escapes_valid x = true.
Proof.
  split; [|apply clean_brand_name_fixed_valid].
  intros Hidem. destruct (escapes_valid x) eqn:Hx; [done|].
  exfalso.
  pose proof (backslashes_clean_gt _ (invalid_clean_brand_name x Hx)) as Hgt.
  rewrite <- backslashes_clean_brand_name, Hidem in Hgt. lia.
Qed.

Lemma clean_brand_name_idempotent_iff_witness :
  escapes_valid (py "  Coca   Cola\n ") = true /\
  clean_brand_name (clean_brand_name (py "  Coca   Cola\n ")) =
  clean_brand_name (py "  Coca   Cola\n ").
Proof.
  split; [reflexivity|].
  apply (proj2 (clean_brand_name_idempotent_iff (py "  Coca   Cola\n "))).
  reflexivity.
Defined.

(** C2 (failing input): the brand name A\B is cleaned to A\\B, and
    cleaning that again gives A\\\B: the second backslash of the pair,
    an escape that the comment of the function lists as valid, stands
    before B and is doubled in its turn, which leaves a backslash before
    B again. *)
Lemma clean_brand_name_not_idempotent :
  clean_brand_name (py "A\B") = py "A\\B" /\
  clean_brand_name (clean_brand_name (py "A\B")) = py "A\\\B" /\
  clean_brand_name (clean_brand_name (py "A\B")) <> clean_brand_name (py "A\B").
Proof. repeat split; [reflexivity .. | discriminate]. Qed.

(** ** The line parser *)

Lemma lstrip_idem s : lstrip (lstrip s) = lstrip s.
Proof.
  pose proof (lstrip_no_space s) as H.
  destruct (lstrip s) as [|c t]; [done | by apply lstrip_id].
Qed.

Lemma lstrip_rstrip_comm s : lstrip (rstrip s) = rstrip (lstrip s).
Proof.
  induction s as [|c s IH]; [done|].
  destruct (isspace c) eqn:E.
  - transitivity (lstrip (rstrip s)).
    + simpl. destruct (rstrip s) as [|d r]; rewrite ?E; [done|].
      simpl. by rewrite E.
    + rewrite IH. simpl. by rewrite E.
  - destruct (rstrip_cons_keep c s E) as [r Hr].
    rewrite (lstrip_id c s E), Hr. by apply lstrip_id.
Qed.

Lemma strip_lstrip s : strip (lstrip s) = strip s.
Proof. unfold strip. by rewrite lstrip_idem. Qed.

Lemma strip_rstrip s : strip (rstrip s) = strip s.
Proof. unfold strip. by rewrite lstrip_rstrip_comm, rstrip_idem. Qed.

Lemma lstrip_app_keep l c r :
  isspace c = false -> lstrip (l ++ c :: r) = lstrip l ++ c :: r.
Proof.
  intros E. induction l as [|a l IH]; simpl.
  - by rewrite E.
  - by destruct (isspace a).
Qed.

Lemma rstrip_app_keep l c r :
  isspace c = false -> rstrip (l ++ c :: r) = l ++ c :: rstrip r.
Proof.
  intros E. induction l as [|a l IH].
  - simpl. destruct (rstrip r); by rewrite ?E.
  - change (rstrip ((a :: l) ++ c :: r)) with
      (match rstrip (l ++ c :: r) with
       | [] => if isspace a then [] else [a]
       | r' => a :: r'
       end).
    rewrite IH. by destruct l.
Qed.

Lemma strip_app_keep l c r :
  isspace c = false -> strip (l ++ c :: r) = lstrip l ++ c :: rstrip r.
Proof.
  intros E. unfold strip.
  by rewrite (lstrip_app_keep _ _ _ E), (rstrip_app_keep _ _ _ E).
Qed.

Lemma cut_at_first_Some sep s l r :
  cut_at_first sep s = Some (l, r) ->
  s = l ++ sep :: r /\ contains sep l = false.
Proof.
  revert l. induction s as [|c s IH]; intros l; simpl; [done|].
  destruct (N.eqb_spec c sep) as [->|Hne].
  - intros [= <- <-]. done.
  - destruct (cut_at_first sep s) as [[l' r']|]; [|done].
    intros [= <- <-]. destruct (IH l' eq_refl) as [-> Hl].
    split; [done|]. simpl. rewrite Hl, orb_false_r.
    by apply N.eqb_neq.
Qed.

Lemma cut_at_first_None sep s :
  cut_at_first sep s = None -> contains sep s = false.
Proof.
  induction s as [|c s IH]; simpl; [done|].
  destruct (N.eqb_spec c sep) as [->|Hne]; [done|].
  destruct (cut_at_first sep s) as [[l' r']|]; [done|].
  intros _. rewrite IH by done. rewrite orb_false_r.
  by apply N.eqb_neq.
Qed.

Lemma contains_app_sep sep l r : contains sep (l ++ sep :: r) = true.
Proof.
  unfold contains. rewrite existsb_app. simpl.
  by rewrite N.eqb_refl, orb_true_r.
Qed.

Lemma contains_lstrip sep s :
  contains sep s = false -> contains sep (lstrip s) = false.
Proof.
  induction s as [|c s IH]; simpl; [done|].
  destruct (isspace c); [|done].
  rewrite orb_false_iff. intros [_ H]. by apply IH.
Qed.

Lemma contains_rstrip sep s :
  contains sep s = false -> contains sep (rstrip s) = false.
Proof.
  induction s as [|c s IH]; simpl; [done|].
  rewrite orb_false_iff. intros [Hc Hs]. specialize (IH Hs).
  destruct (rstrip s) as [|d r].
  - destruct (isspace c); simpl; [done | by rewrite Hc].
  - change (contains sep (c :: d :: r)) with
      ((sep =? c) || contains sep (d :: r)).
    by rewrite Hc, IH.
Qed.

Lemma split1_app_sep sep l r :
  contains sep l = false -> split1 sep (l ++ sep :: r) = [l; r].
Proof.
  induction l as [|c l IH]; simpl.
  - by rewrite N.eqb_refl.
  - rewrite orb_false_iff, N.eqb_sym. intros [-> H]. by rewrite IH.
Qed.

Lemma equals_not_space : isspace EQUALS = false.
Proof. reflexivity. Qed.

(** What the loop appends for one line is what the specification keeps
    of that line. *)
Lemma parse_line_spec line :
  parse_line line = option_list (spec_parse_line line).
Proof.
  unfold parse_line, spec_parse_line. cbv zeta.
  destruct (cut_at_first EQUALS line) as [[l r]|] eqn:Hcut.
  - apply cut_at_first_Some in Hcut as [-> Hl].
    rewrite !(strip_app_keep _ _ _ equals_not_space).
    rewrite contains_app_sep.
    rewrite split1_app_sep by by apply contains_lstrip.
    rewrite strip_lstrip, strip_rstrip.
    destruct (strip l), (strip r); done.
  - apply cut_at_first_None in Hcut.
    unfold strip. by rewrite contains_rstrip by by apply contains_lstrip.
Qed.

Lemma fold_left_append {A B} (f : A -> list B) (l : list A) (acc : list B) :
  fold_left (fun acc x => acc ++ f x) l acc = acc ++ flat_map f l.
Proof.
  revert acc. induction l as [|x l IH]; intros acc; simpl.
  - by rewrite app_nil_r.
  - by rewrite IH, app_assoc.
Qed.

Lemma parse_mappings_flat_map text :
  parse_mappings text = flat_map parse_line (split LF text).
Proof. unfold parse_mappings. by rewrite fold_left_append. Qed.

Lemma flat_map_option_list {A B} (f : A -> option B) (l : list A) :
  flat_map (fun x => option_list (f x)) l = omap f l.
Proof.
  induction l as [|x l IH]; simpl; [done|].
  rewrite IH. by destruct (f x).
Qed.

(** C4: the loop that extracts the pairs is the parser of the
    specification: the text is split into lines, each line is cut at its
    first [=], both sides are trimmed, a line without [=] or with an
    empty side is skipped, and the surviving pairs come out in line
    order; the text of two lines A=B and C=D, each ended by a line feed,
    parses to the pairs (A,B) and (C,D), before and after the trimming
    that [process_llm_response] applies first. *)
Theorem parse_mappings_refines_spec :
  (forall text : str, parse_mappings text = spec_parse_mapping text) /\
  parse_mappings (py "A=B" ++ [LF] ++ py "C=D" ++ [LF])
  = [MappingEntry (py "A") (py "B"); MappingEntry (py "C") (py "D")] /\
  parse_mappings (strip (py "A=B" ++ [LF] ++ py "C=D" ++ [LF]))
  = [MappingEntry (py "A") (py "B"); MappingEntry (py "C") (py "D")].
Proof.
  split; [|split; reflexivity].
  intros text. rewrite parse_mappings_flat_map. unfold spec_parse_mapping.
  rewrite <- flat_map_option_list.
  apply flat_map_ext, parse_line_spec.
Qed.

(** ** Dictionaries *)

Lemma dict_get_set_eq k v d : dict_get k (dict_set k v d) = Some v.
Proof.
  induction d as [|[k' v'] d IH]; simpl.
  - unfold str_eqb. by rewrite bool_decide_eq_true_2.
  - unfold str_eqb. case_bool_decide as E; simpl; unfold str_eqb.
    + by rewrite bool_decide_eq_true_2.
    + by rewrite bool_decide_eq_false_2.
Qed.

Lemma dict_get_set_ne k k' v d :
  k <> k' -> dict_get k' (dict_set k v d) = dict_get k' d.
Proof.
  intros Hne. induction d as [|[k0 v0] d IH]; simpl.
  - unfold str_eqb. by rewrite bool_decide_eq_false_2.
  - unfold str_eqb. case_bool_decide as E; simpl; unfold str_eqb.
    + subst k0. by rewrite bool_decide_eq_false_2.
    + by rewrite IH.
Qed.

Lemma dict_keys_set_new k v d :
  k ∉ dict_keys d -> dict_keys (dict_set k v d) = dict_keys d ++ [k].
Proof.
  induction d as [|[k0 v0] d IH]; simpl; [done|].
  rewrite not_elem_of_cons. intros [Hne Hk].
  unfold str_eqb. rewrite bool_decide_eq_false_2 by done.
  simpl. by rewrite IH.
Qed.

Lemma dict_get_None k d : k ∉ dict_keys d -> dict_get k d = None.
Proof.
  induction d as [|[k0 v0] d IH]; simpl; [done|].
  rewrite not_elem_of_cons. intros [Hne Hk].
  unfold str_eqb. rewrite bool_decide_eq_false_2 by done. by apply IH.
Qed.

(** ** Initial generation *)

Section Generation.

Context (client : llm_client) (json_loads : str -> option json).

Lemma collect_eq d f :
  collect json_loads d f
  = dict_set (future_column_id f) (collected_value json_loads f) d.
Proof.
  unfold collect, collected_value.
  destruct (future_result f) as [[[id output] error]|e]; [|done].
  by destruct (error_set error).
Qed.

Lemma fold_collect_other k fs d :
  k ∉ map future_column_id fs ->
  dict_get k (fold_left (collect json_loads) fs d) = dict_get k d.
Proof.
  revert d. induction fs as [|f fs IH]; intros d; simpl; [done|].
  rewrite not_elem_of_cons. intros [Hne Hk].
  rewrite IH by done. rewrite collect_eq. by apply dict_get_set_ne.
Qed.

Lemma fold_collect_lookup fs d f :
  NoDup (map future_column_id fs) -> f ∈ fs ->
  dict_get (future_column_id f) (fold_left (collect json_loads) fs d)
  = Some (collected_value json_loads f).
Proof.
  revert d. induction fs as [|g fs IH]; intros d; simpl.
  - intros _ Hf. by apply elem_of_nil in Hf.
  - rewrite NoDup_cons. intros [Hg Hnd] [->|Hf]%elem_of_cons.
    + rewrite fold_collect_other by done.
      rewrite collect_eq. apply dict_get_set_eq.
    + by apply IH.
Qed.

Lemma fold_collect_keys fs d :
  NoDup (dict_keys d ++ map future_column_id fs) ->
  dict_keys (fold_left (collect json_loads) fs d)
  = dict_keys d ++ map future_column_id fs.
Proof.
  revert d. induction fs as [|f fs IH]; intros d; simpl.
  - by rewrite app_nil_r.
  - intros Hnd. rewrite collect_eq.
    assert (Hf : future_column_id f ∉ dict_keys d).
    { apply NoDup_app in Hnd as (_ & Hd & _). intros Hin.
      apply (Hd _ Hin). by left. }
    rewrite IH; rewrite dict_keys_set_new by done.
    + by rewrite <- app_assoc.
    + by rewrite <- app_assoc.
Qed.

Lemma submit_column_ids tasks :
  map future_column_id (map (submit (Some client)) tasks)
  = map task_column_id tasks.
Proof. rewrite map_map. by apply map_ext. Qed.

(** The entry of a task in the table: the value collected from its own
    future, whatever the order of completion. *)
Lemma generate_lookup as_completed tasks t :
  (forall fs, as_completed fs ≡ₚ fs) ->
  NoDup (map task_column_id tasks) -> t ∈ tasks ->
  dict_get (task_column_id t)
    (generate_mappings_for_all_columns (Some client) json_loads
       as_completed tasks)
  = Some (collected_value json_loads (submit (Some client) t)).
Proof.
  intros Hperm Hnd Ht. unfold generate_mappings_for_all_columns.
  destruct tasks as [|t0 tasks']; [by apply elem_of_nil in Ht|].
  set (tasks := t0 :: tasks') in *.
  change (task_column_id t)
    with (future_column_id (submit (Some client) t)).
  apply fold_collect_lookup.
  - rewrite (Hperm _). by rewrite submit_column_ids.
  - rewrite (Hperm _). by apply (list_elem_of_fmap_2 (submit (Some client))).
Qed.

Lemma generate_keys as_completed tasks :
  (forall fs, as_completed fs ≡ₚ fs) ->
  NoDup (map task_column_id tasks) ->
  dict_keys (generate_mappings_for_all_columns (Some client) json_loads
               as_completed tasks)
  ≡ₚ map task_column_id tasks.
Proof.
  intros Hperm Hnd. unfold generate_mappings_for_all_columns.
  destruct tasks as [|t0 tasks']; [done|].
  set (tasks := t0 :: tasks') in *.
  assert (Hids : map future_column_id
                   (as_completed (map (submit (Some client)) tasks))
                 ≡ₚ map task_column_id tasks).
  { rewrite (Hperm _). by rewrite submit_column_ids. }
  rewrite fold_collect_keys; [exact Hids|].
  change (NoDup (map future_column_id
                   (as_completed (map (submit (Some client)) tasks)))).
  by rewrite Hids.
Qed.

Lemma collected_value_submit t :
  collected_value json_loads (submit (Some client) t)
  = match invoke client (task_column_id t) (task_prompt t) with
    | Ok content =>
        process_llm_response json_loads (Some content) (task_column_id t)
    | Raise [] => py "Error: 'NoneType' object has no attribute 'strip'"
    | Raise (c :: e) => py "Error: " ++ c :: e
    end.
Proof.
  unfold collected_value, submit, call_llm_parallel. simpl.
  destruct (invoke client _ _) as [content|[|c e]]; done.
Qed.

End Generation.

(** ** Refinement *)

Section Refinement.

Context (llm : option llm_client) (json_loads : str -> option json)
        (json_dumps : list mapping_entry -> str)
        (F : gmap str (list mapping_entry)).

(** [call_llm] always returns a text: an exception of the model becomes
    the text of an error message. *)
Lemma call_llm_returns prompt log :
  call_llm llm prompt log =
  match llm with
  | None => (Ok (py "Error: LLM not initialized"), log)
  | Some client =>
      (Ok match predict client (length log) prompt with
          | Ok response => strip response
          | Raise e => py "Error calling LLM: " ++ e
          end,
       log ++ [prompt])
  end.
Proof.
  unfold call_llm. destruct llm as [client|]; [|done].
  unfold try_except, bind, request, ret.
  by destruct (predict client (length log) prompt).
Qed.

Lemma refine_column_no_feedback column_id mapping_output log :
  has_feedback F (column_id, mapping_output) = false ->
  refine_column llm json_loads json_dumps F column_id mapping_output log
  = (Ok mapping_output, log).
Proof.
  unfold has_feedback, feedback_of, refine_column. simpl.
  by destruct (F !! column_id) as [[|entry rest]|].
Qed.

Lemma refine_column_feedback column_id mapping_output log :
  has_feedback F (column_id, mapping_output) = true ->
  refine_column llm json_loads json_dumps F column_id mapping_output log
  = let prompt := refinement_prompt_of json_dumps F (column_id, mapping_output) in
    match call_llm llm prompt log with
    | (Ok refined_response, log') =>
        (Ok (process_llm_response json_loads (Some refined_response) column_id),
         log')
    | (Raise e, log') => (Ok mapping_output, log')
    end.
Proof.
  unfold has_feedback, refinement_prompt_of, feedback_of, refine_column. simpl.
  destruct (F !! column_id) as [[|entry rest]|]; simpl; [done| |done].
  intros _. unfold try_except, bind, ret.
  by destruct (call_llm _ _ _) as [[v|e] log'].
Qed.

Lemma Ok_inj {A} (a b : A) : Ok a = Ok b -> a = b.
Proof. by intros [= ->]. Qed.

(** With a client, the step of a column that has feedback stores the
    processed answer of [call_llm], which is never an exception. *)
Lemma refine_column_client client column_id mapping_output log :
  llm = Some client ->
  has_feedback F (column_id, mapping_output) = true ->
  refine_column llm json_loads json_dumps F column_id mapping_output log
  = let prompt := refinement_prompt_of json_dumps F (column_id, mapping_output) in
    (Ok (process_llm_response json_loads
           (Some match predict client (length log) prompt with
                 | Ok response => strip response
                 | Raise e => py "Error calling LLM: " ++ e
                 end)
           column_id),
     log ++ [prompt]).
Proof.
  intros Hllm Hfb. rewrite refine_column_feedback by done. cbv zeta.
  rewrite call_llm_returns. by rewrite Hllm.
Qed.

(** The step of one column never raises and only extends the log. *)
Lemma refine_column_returns column_id mapping_output log :
  exists v extra,
    refine_column llm json_loads json_dumps F column_id mapping_output log
    = (Ok v, log ++ extra)
    /\ extra = (if has_feedback F (column_id, mapping_output)
                then match llm with
                     | Some _ =>
                         [refinement_prompt_of json_dumps F
                            (column_id, mapping_output)]
                     | None => []
                     end
                else []).
Proof.
  destruct (has_feedback F (column_id, mapping_output)) eqn:Hfb.
  - rewrite refine_column_feedback by done. cbv zeta.
    rewrite call_llm_returns. destruct llm; eexists _, _; split; try done.
    by rewrite app_nil_r.
  - rewrite refine_column_no_feedback by done.
    exists mapping_output, []. by rewrite app_nil_r.
Qed.

Lemma refine_items_cons column_id mapping_output items d log :
  refine_items llm json_loads json_dumps F
    ((column_id, mapping_output) :: items) d log
  = match refine_column llm json_loads json_dumps F column_id mapping_output
            log with
    | (Ok v, log') =>
        refine_items llm json_loads json_dumps F items
          (dict_set column_id v d) log'
    | (Raise e, log') => (Raise e, log')
    end.
Proof. done. Qed.

(** The whole loop returns, with one key per item and with the prompts
    of the columns that have feedback as its requests, in order. *)
Lemma refine_items_returns items d log :
  exists d',
    refine_items llm json_loads json_dumps F items d log
    = (Ok d',
       log ++ match llm with
              | Some _ =>
                  map (refinement_prompt_of json_dumps F)
                      (List.filter (has_feedback F) items)
              | None => []
              end)
    /\ (NoDup (dict_keys d ++ dict_keys items) ->
        dict_keys d' = dict_keys d ++ dict_keys items)
    /\ (forall k, k ∉ dict_keys items -> dict_get k d' = dict_get k d).
Proof.
  revert d log. induction items as [|[column_id mapping_output] items IH];
    intros d log.
  - exists d. split; [|split].
    + simpl. unfold ret. destruct llm; simpl; by rewrite app_nil_r.
    + simpl. by rewrite app_nil_r.
    + done.
  - rewrite refine_items_cons.
    destruct (refine_column_returns column_id mapping_output log)
      as (v & extra & -> & Hextra).
    destruct (IH (dict_set column_id v d) (log ++ extra))
      as (d' & -> & Hkeys & Hother).
    exists d'. split; [|split].
    + f_equal. rewrite <- app_assoc. f_equal. rewrite Hextra. simpl.
      destruct (has_feedback F (column_id, mapping_output)); by destruct llm.
    + simpl. intros Hnd.
      assert (Hk : column_id ∉ dict_keys d).
      { apply NoDup_app in Hnd as (_ & Hd & _). intros Hin.
        apply (Hd _ Hin). by left. }
      rewrite Hkeys; rewrite dict_keys_set_new by done.
      * by rewrite <- app_assoc.
      * by rewrite <- app_assoc.
    + intros k. simpl. rewrite not_elem_of_cons. intros [Hne Hk].
      rewrite Hother by done. by apply dict_get_set_ne.
Qed.

(** The entry of an item: the value of its own step, which ran after the
    requests [before] and made the requests [after]. *)
Lemma refine_items_lookup items d log column_id mapping_output :
  NoDup (dict_keys items) -> (column_id, mapping_output) ∈ items ->
  exists d' before v after later,
    refine_items llm json_loads json_dumps F items d log
    = (Ok d', log ++ before ++ after ++ later)
    /\ refine_column llm json_loads json_dumps F column_id mapping_output
         (log ++ before) = (Ok v, log ++ before ++ after)
    /\ dict_get column_id d' = Some v.
Proof.
  revert d log. induction items as [|[k0 m0] items IH]; intros d log.
  - intros _ Hin. by apply elem_of_nil in Hin.
  - change (dict_keys ((k0, m0) :: items)) with (k0 :: dict_keys items).
    rewrite NoDup_cons. intros [Hk0 Hnd] Hin.
    rewrite refine_items_cons.
    destruct (refine_column_returns k0 m0 log) as (v0 & extra & Hstep & _).
    apply elem_of_cons in Hin as [[= -> ->]|Hin].
    + destruct (refine_items_returns items (dict_set k0 v0 d) (log ++ extra))
        as (d' & Hrun & _ & Hother).
      exists d', [], v0, extra,
        (match llm with
         | Some _ =>
             map (refinement_prompt_of json_dumps F)
                 (List.filter (has_feedback F) items)
         | None => []
         end).
      rewrite Hstep, Hrun, app_nil_r.
      split; [by rewrite <- app_assoc|]. split; [done|].
      rewrite Hother by done. apply dict_get_set_eq.
    + rewrite Hstep.
      destruct (IH (dict_set k0 v0 d) (log ++ extra) Hnd Hin)
        as (d' & before & v & after & later & Hrun & Hcol & Hget).
      exists d', (extra ++ before), v, after, later.
      rewrite <- !app_assoc in *. done.
Qed.

End Refinement.

(** ** The claims on initial generation *)

Lemma process_llm_response_pairs json_loads output column_id :
  parse_mappings (strip output) <> [] ->
  process_llm_response json_loads (Some output) column_id = strip output.
Proof.
  unfold process_llm_response. by destruct (parse_mappings (strip output)).
Qed.

Lemma process_llm_response_no_pairs json_loads output column_id :
  parse_mappings (strip output) = [] ->
  process_llm_response json_loads (Some output) column_id
  = match search_json_array (strip output) with
    | Some array =>
        match json_loads array with
        | Some _ => array
        | None => could_not_parse column_id
        end
    | None => could_not_parse column_id
    end.
Proof.
  unfold process_llm_response. intros ->.
  destruct (search_json_array (strip output)) as [array|]; [|done].
  by destruct (json_loads array).
Qed.

Lemma rev_permutation {A} (fs : list A) : rev fs ≡ₚ fs.
Proof. symmetry. apply Permutation_rev. Qed.

(** C8: with one entry per task (distinct column ids), whatever the order
    of completion: the table has exactly the column ids of the tasks as
    keys; the entry of a task whose request raises is the error marker
    made of its own message; the entry of a task whose request answers
    is its own processed response; and the entry of a task is the same
    under any other model that treats this task alike, so no outcome of
    a sibling task changes it. *)
Theorem generation_isolates_failures
    (client : llm_client) (json_loads : str -> option json)
    (as_completed : list future -> list future)
    (tasks : list task) (t : task) :
  (forall fs, as_completed fs ≡ₚ fs) ->
  NoDup (map task_column_id tasks) ->
  t ∈ tasks ->
  let table :=
    generate_mappings_for_all_columns (Some client) json_loads as_completed
      tasks in
  dict_keys table ≡ₚ map task_column_id tasks /\
  dict_get (task_column_id t) table
  = Some match invoke client (task_column_id t) (task_prompt t) with
         | Ok content =>
             process_llm_response json_loads (Some content) (task_column_id t)
         | Raise [] => py "Error: 'NoneType' object has no attribute 'strip'"
         | Raise (c :: e) => py "Error: " ++ c :: e
         end /\
  (forall (client' : llm_client) (as_completed' : list future -> list future),
      (forall fs, as_completed' fs ≡ₚ fs) ->
      invoke client' (task_column_id t) (task_prompt t)
      = invoke client (task_column_id t) (task_prompt t) ->
      dict_get (task_column_id t)
        (generate_mappings_for_all_columns (Some client') json_loads
           as_completed' tasks)
      = dict_get (task_column_id t) table).
Proof.
  intros Hperm Hnd Ht table. subst table. split; [|split].
  - by apply generate_keys.
  - rewrite generate_lookup by done. by rewrite collected_value_submit.
  - intros client' as_completed' Hperm' Hsame.
    rewrite !generate_lookup by done.
    by rewrite !collected_value_submit, Hsame.
Qed.

Lemma example_tasks_distinct : NoDup (map task_column_id example_tasks).
Proof. apply (bool_decide_unpack _). by vm_compute. Qed.

Lemma generation_isolates_failures_witness :
  NoDup (map task_column_id example_tasks) /\
  let table :=
    generate_mappings_for_all_columns (Some example_client)
      json_loads_fragment (@rev future) example_tasks in
  dict_get col_maker table = Some (py "Error: Connection error.") /\
  dict_get col_brand table
  = Some (py "Pepsi=Pepsi" ++ [LF] ++ py "PEPSI=Pepsi") /\
  dict_get col_label table = Some (py "X=X").
Proof.
  split; [exact example_tasks_distinct|].
  pose proof (generation_isolates_failures example_client json_loads_fragment
                (@rev future) example_tasks) as H.
  assert (Hin : forall t, In t example_tasks -> t ∈ example_tasks).
  { intros t. apply list_elem_of_In. }
  cbv zeta. split; [|split].
  - destruct (H (Task col_maker (py "prompt for maker") [py "A"; py "B"])
                rev_permutation example_tasks_distinct) as (_ & Hget & _).
    + apply Hin. vm_compute. auto.
    + exact Hget.
  - destruct (H (Task col_brand (py "prompt for brand")
                   [py "Pepsi"; py "PEPSI"])
                rev_permutation example_tasks_distinct) as (_ & Hget & _).
    + apply Hin. vm_compute. auto.
    + exact Hget.
  - destruct (H (Task col_label (py "prompt for label") [py "X"])
                rev_permutation example_tasks_distinct) as (_ & Hget & _).
    + apply Hin. vm_compute. auto.
    + exact Hget.
Defined.

Lemma strip_pairs_twice output :
  parse_mappings (strip output) <> [] ->
  parse_mappings (strip (strip output)) <> [].
Proof. by rewrite strip_idem. Qed.

(** C1 (as amended): when the response of a column yields at least one
    pair, the stored Mapping is the trimmed response text itself, after
    initial generation and after a refinement round alike; so its
    original values are the left-hand sides written in the response, in
    response order, whatever the column's Value Set is. *)
Theorem stored_mapping_is_trimmed_response
    (client : llm_client) (json_loads : str -> option json)
    (json_dumps : list mapping_entry -> str)
    (as_completed : list future -> list future) :
  (forall fs, as_completed fs ≡ₚ fs) ->
  (forall (tasks : list task) (t : task) (content : str),
      NoDup (map task_column_id tasks) -> t ∈ tasks ->
      invoke client (task_column_id t) (task_prompt t) = Ok content ->
      parse_mappings (strip content) <> [] ->
      dict_get (task_column_id t)
        (generate_mappings_for_all_columns (Some client) json_loads
           as_completed tasks)
      = Some (strip content)) /\
  (forall (all_column_mappings : dict)
          (all_column_feedback : gmap str (list mapping_entry))
          (column_id mapping_output : str) (log : list str),
      NoDup (dict_keys all_column_mappings) ->
      (column_id, mapping_output) ∈ all_column_mappings ->
      has_feedback all_column_feedback (column_id, mapping_output) = true ->
      exists (refined : dict) (log' : list str) (n : nat),
        process_feedback_for_all_columns (Some client) json_loads json_dumps
          all_column_mappings all_column_feedback log = (Ok refined, log')
        /\ log' !! n
           = Some (refinement_prompt_of json_dumps all_column_feedback
                     (column_id, mapping_output))
        /\ forall response,
            predict client n
              (refinement_prompt_of json_dumps all_column_feedback
                 (column_id, mapping_output)) = Ok response ->
            parse_mappings (strip response) <> [] ->
            dict_get column_id refined = Some (strip response)).
Proof.
  intros Hperm. split.
  - intros tasks t content Hnd Ht Hinv Hpairs.
    rewrite generate_lookup by done.
    rewrite collected_value_submit, Hinv.
    by rewrite process_llm_response_pairs.
  - intros M F column_id mapping_output log Hnd Hin Hfb.
    destruct (refine_items_lookup (Some client) json_loads json_dumps F
                M [] log column_id mapping_output Hnd Hin)
      as (d' & before & v & after & later & Hrun & Hcol & Hget).
    unfold process_feedback_for_all_columns.
    eexists d', _, (length (log ++ before)).
    split; [exact Hrun|].
    rewrite (refine_column_client _ _ _ _ client) in Hcol by done.
    cbv zeta in Hcol.
    pose proof (f_equal fst Hcol) as Hv. pose proof (f_equal snd Hcol) as Hlog.
    cbn [fst snd] in Hv, Hlog. apply Ok_inj in Hv.
    rewrite app_assoc in Hlog. apply app_inv_head in Hlog. subst after.
    split.
    + rewrite app_assoc. rewrite lookup_app_r by lia.
      by rewrite Nat.sub_diag.
    + intros response Hresp Hpairs.
      rewrite Hget, <- Hv, Hresp. f_equal.
      rewrite process_llm_response_pairs by by apply strip_pairs_twice.
      apply strip_idem.
Qed.

Lemma example_mappings_distinct : NoDup (dict_keys example_mappings).
Proof. apply (bool_decide_unpack _). by vm_compute. Qed.

Lemma In_elem_of {A} (x : A) (l : list A) : In x l -> x ∈ l.
Proof. apply list_elem_of_In. Qed.

Lemma stored_mapping_is_trimmed_response_witness :
  dict_get col_maker
    (generate_mappings_for_all_columns (Some partial_client)
       json_loads_fragment (@rev future) example_tasks)
  = Some (py "A=A") /\
  exists (refined : dict) (log' : list str) (n : nat),
    process_feedback_for_all_columns (Some partial_client)
      json_loads_fragment json_dumps_fragment
      example_mappings example_feedback [] = (Ok refined, log')
    /\ dict_get col_maker refined = Some (py "A=A").
Proof.
  destruct (stored_mapping_is_trimmed_response partial_client
              json_loads_fragment json_dumps_fragment (@rev future)
              rev_permutation) as [Hgen Href].
  split.
  - apply (Hgen example_tasks
             (Task col_maker (py "prompt for maker") [py "A"; py "B"])
             (py "A=A") example_tasks_distinct).
    + apply In_elem_of. vm_compute. auto.
    + reflexivity.
    + by vm_compute.
  - destruct (Href example_mappings example_feedback col_maker
                (py "A=A" ++ [LF] ++ py "B=B") [] example_mappings_distinct)
      as (refined & log' & n & Hrun & _ & Hget).
    + apply In_elem_of. vm_compute. auto.
    + by vm_compute.
    + exists refined, log', n. split; [exact Hrun|].
      apply (Hget (py "A=A")); [reflexivity | by vm_compute].
Defined.

(** C1 (counterexample): the Value Set of the column is A, B and the
    model answers the single line A=A: the stored Mapping is that line,
    its only original value is A, and B, a value of the Value Set, has no
    entry: nothing is inserted for it. *)
Lemma generation_leaves_value_unmapped :
  let table :=
    generate_mappings_for_all_columns (Some partial_client)
      json_loads_fragment (fun fs => fs) example_tasks in
  (Task col_maker (py "prompt for maker") [py "A"; py "B"]) ∈ example_tasks /\
  dict_get col_maker table = Some (py "A=A") /\
  originals (py "A=A") = [py "A"] /\
  py "B" ∉ originals (py "A=A").
Proof.
  cbv zeta. split; [|split; [|split]].
  - apply In_elem_of. vm_compute. auto.
  - by vm_compute.
  - by vm_compute.
  - intros Hin. apply list_elem_of_In in Hin. vm_compute in Hin.
    by destruct Hin as [?|[]].
Qed.

(** C3 (as amended): when no pair is extracted from the response of a
    column, its entry in the table is the fixed message that names the
    column id, unless the trimmed response holds a bracketed span (first
    opening to last closing bracket) that [json.loads] accepts, which is
    then the entry; the response text is not kept otherwise, and no
    identity mapping is built. *)
Theorem unparsed_response_entry
    (client : llm_client) (json_loads : str -> option json)
    (as_completed : list future -> list future)
    (tasks : list task) (t : task) (content : str) :
  (forall fs, as_completed fs ≡ₚ fs) ->
  NoDup (map task_column_id tasks) ->
  t ∈ tasks ->
  invoke client (task_column_id t) (task_prompt t) = Ok content ->
  parse_mappings (strip content) = [] ->
  dict_get (task_column_id t)
    (generate_mappings_for_all_columns (Some client) json_loads as_completed
       tasks)
  = Some match search_json_array (strip content) with
         | Some array =>
             match json_loads array with
             | Some _ => array
             | None => could_not_parse (task_column_id t)
             end
         | None => could_not_parse (task_column_id t)
         end.
Proof.
  intros Hperm Hnd Ht Hinv Hnone.
  rewrite generate_lookup by done.
  rewrite collected_value_submit, Hinv.
  by rewrite process_llm_response_no_pairs.
Qed.

Lemma unparsed_response_entry_witness :
  dict_get col_maker
    (generate_mappings_for_all_columns (Some prose_client)
       json_loads_fragment (@rev future) example_tasks)
  = Some (py "Error: Could not parse response for Column Group 1 - maker. Expected format: original_name=canonical_name").
Proof.
  apply (unparsed_response_entry prose_client json_loads_fragment
           (@rev future) example_tasks
           (Task col_maker (py "prompt for maker") [py "A"; py "B"])
           (py "I cannot help with that.")
           rev_permutation example_tasks_distinct).
  - apply In_elem_of. vm_compute. auto.
  - reflexivity.
  - reflexivity.
Defined.

(** C3 (counterexample): the model answers a sentence without any pair
    for the column whose Value Set is A, B.  The entry stored for the
    column is the error message, which does not contain the response
    text; read back by the parser it gives one pair cut out of the
    message, not the pairs (A,A) and (B,B). *)
Lemma unparsed_response_no_identity_mapping :
  let table :=
    generate_mappings_for_all_columns (Some prose_client)
      json_loads_fragment (fun fs => fs) example_tasks in
  parse_mappings (strip (py "I cannot help with that.")) = [] /\
  dict_get col_maker table = Some (could_not_parse col_maker) /\
  has_substr (py "I cannot help with that.") (could_not_parse col_maker)
  = false /\
  parse_mappings (could_not_parse col_maker)
  = [MappingEntry
       (py "Error: Could not parse response for Column Group 1 - maker. Expected format: original_name")
       (py "canonical_name")] /\
  parse_mappings (could_not_parse col_maker)
  <> [MappingEntry (py "A") (py "A"); MappingEntry (py "B") (py "B")].
Proof.
  cbv zeta. repeat split; try by vm_compute.
Qed.

(** ** The claims on refinement *)

(** C7 (the code at the failing input): the column has one correction,
    and the request to the model raises a connection error.  [call_llm]
    turns the exception into a text, so the handler that keeps the
    previous Mapping is not reached: the entry of the column becomes the
    message of [process_llm_response], and the previous Mapping (A=A,
    B=B) is lost. *)
Theorem refinement_failure_replaces_mapping
    (json_loads : str -> option json)
    (json_dumps : list mapping_entry -> str) :
  predict example_client 0
    (refinement_prompt_of json_dumps example_feedback
       (col_maker, py "A=A" ++ [LF] ++ py "B=B"))
  = Raise (py "Connection error.") /\
  process_feedback_for_all_columns (Some example_client) json_loads
    json_dumps example_mappings example_feedback []
  = (Ok [ (col_maker, could_not_parse col_maker); (col_label, py "X=X") ],
     [ refinement_prompt_of json_dumps example_feedback
         (col_maker, py "A=A" ++ [LF] ++ py "B=B") ]) /\
  could_not_parse col_maker <> py "A=A" ++ [LF] ++ py "B=B".
Proof.
  split; [reflexivity|]. split; [|by vm_compute].
  vm_compute. reflexivity.
Qed.

(** Every exception of the model ends in the entry, never in the
    handler of the refinement loop. *)
Lemma refinement_exception_is_stored
    (client : llm_client) (json_loads : str -> option json)
    (json_dumps : list mapping_entry -> str)
    (F : gmap str (list mapping_entry)) (column_id mapping_output e : str)
    (log : list str) :
  has_feedback F (column_id, mapping_output) = true ->
  predict client (length log)
    (refinement_prompt_of json_dumps F (column_id, mapping_output)) = Raise e ->
  refine_column (Some client) json_loads json_dumps F column_id mapping_output
    log
  = (Ok (process_llm_response json_loads
           (Some (py "Error calling LLM: " ++ e)) column_id),
     log ++ [refinement_prompt_of json_dumps F (column_id, mapping_output)]).
Proof.
  intros Hfb Hraise.
  rewrite (refine_column_client _ _ _ _ client) by done.
  cbv zeta. by rewrite Hraise.
Qed.

Lemma no_feedback_iff (F : gmap str (list mapping_entry)) column_id mo :
  F !! column_id = None \/ F !! column_id = Some [] <->
  has_feedback F (column_id, mo) = false.
Proof.
  unfold has_feedback, feedback_of. simpl.
  destruct (F !! column_id) as [[|entry rest]|]; simpl; split;
    try done; auto; by intros [|].
Qed.

Lemma not_in_filter {A} (f : A -> bool) (x : A) (l : list A) :
  f x = false -> x ∉ List.filter f l.
Proof.
  intros Hf Hin. apply list_elem_of_In, filter_In in Hin as [_ Hx].
  congruence.
Qed.

(** C9: a column without feedback in this round (its id is absent from
    the feedback table or bound to the empty list) keeps its Mapping
    unchanged: its step returns the input text and leaves the log of
    requests as it was, in any state; in the run over the whole table
    its entry is the input text, and the requests made are exactly the
    prompts of the columns that do have feedback, of which it is not
    one. *)
Theorem no_feedback_passes_through
    (llm : option llm_client) (json_loads : str -> option json)
    (json_dumps : list mapping_entry -> str)
    (all_column_mappings : dict)
    (all_column_feedback : gmap str (list mapping_entry))
    (column_id mapping_output : str) (log : list str) :
  NoDup (dict_keys all_column_mappings) ->
  (column_id, mapping_output) ∈ all_column_mappings ->
  all_column_feedback !! column_id = None
  \/ all_column_feedback !! column_id = Some [] ->
  (forall log1,
      refine_column llm json_loads json_dumps all_column_feedback
        column_id mapping_output log1 = (Ok mapping_output, log1)) /\
  exists refined,
    process_feedback_for_all_columns llm json_loads json_dumps
      all_column_mappings all_column_feedback log
    = (Ok refined,
       log ++ match llm with
              | Some _ =>
                  map (refinement_prompt_of json_dumps all_column_feedback)
                      (List.filter (has_feedback all_column_feedback)
                                   all_column_mappings)
              | None => []
              end)
    /\ dict_get column_id refined = Some mapping_output
    /\ (column_id, mapping_output)
       ∉ List.filter (has_feedback all_column_feedback) all_column_mappings.
Proof.
  intros Hnd Hin Hnone.
  apply (no_feedback_iff _ _ mapping_output) in Hnone.
  split.
  - intros log1. by apply refine_column_no_feedback.
  - destruct (refine_items_lookup llm json_loads json_dumps
                all_column_feedback all_column_mappings [] log
                column_id mapping_output Hnd Hin)
      as (d' & before & v & after & later & Hrun & Hcol & Hget).
    destruct (refine_items_returns llm json_loads json_dumps
                all_column_feedback all_column_mappings [] log)
      as (d'' & Hrun' & _).
    rewrite refine_column_no_feedback in Hcol by done.
    apply (f_equal fst) in Hcol. cbn [fst] in Hcol. apply Ok_inj in Hcol.
    subst v. unfold process_feedback_for_all_columns.
    exists d''. split; [exact Hrun'|]. split.
    + rewrite Hrun in Hrun'. apply (f_equal fst) in Hrun'.
      cbn [fst] in Hrun'. apply Ok_inj in Hrun'. by subst d''.
    + by apply not_in_filter.
Qed.

Lemma no_feedback_passes_through_witness :
  NoDup (dict_keys example_mappings) /\
  example_feedback !! col_label = None /\
  exists refined,
    process_feedback_for_all_columns (Some partial_client)
      json_loads_fragment json_dumps_fragment
      example_mappings example_feedback []
    = (Ok refined,
       [refinement_prompt_of json_dumps_fragment example_feedback
          (col_maker, py "A=A" ++ [LF] ++ py "B=B")])
    /\ dict_get col_label refined = Some (py "X=X").
Proof.
  split; [exact example_mappings_distinct|]. split; [reflexivity|].
  destruct (no_feedback_passes_through (Some partial_client)
              json_loads_fragment json_dumps_fragment
              example_mappings example_feedback col_label (py "X=X") []
              example_mappings_distinct)
    as (_ & refined & Hrun & Hget & _).
  - apply In_elem_of. vm_compute. auto.
  - left. reflexivity.
  - exists refined. split; [exact Hrun | exact Hget].
Defined.

Lemma refine_column_ext (llm : option llm_client)
    (json_loads : str -> option json) (json_dumps : list mapping_entry -> str)
    (F F' : gmap str (list mapping_entry)) (column_id mapping_output : str) :
  F' !! column_id = F !! column_id ->
  refine_column llm json_loads json_dumps F' column_id mapping_output
  = refine_column llm json_loads json_dumps F column_id mapping_output.
Proof. unfold refine_column. by intros ->. Qed.

Lemma refine_items_ext (llm : option llm_client)
    (json_loads : str -> option json) (json_dumps : list mapping_entry -> str)
    (F F' : gmap str (list mapping_entry)) (items d : dict) (log : list str) :
  (forall k, k ∈ dict_keys items -> F' !! k = F !! k) ->
  refine_items llm json_loads json_dumps F' items d log
  = refine_items llm json_loads json_dumps F items d log.
Proof.
  revert d log. induction items as [|[k0 m0] items IH]; intros d log Hagree;
    [done|].
  rewrite !refine_items_cons.
  rewrite (refine_column_ext _ _ _ F F') by (apply Hagree; by left).
  destruct (refine_column _ _ _ F k0 m0 log) as [[v|e] log']; [|done].
  apply IH. intros k Hk. apply Hagree. by right.
Qed.

(** C10: refinement returns a table with the same keys as the table it
    is given, in the same order, one entry per column id; and what the
    feedback table holds under other keys has no effect at all: with any
    feedback table that agrees on the keys of the mapping table, the
    returned table and the requests made are the same. *)
Theorem refinement_keeps_key_set
    (llm : option llm_client) (json_loads : str -> option json)
    (json_dumps : list mapping_entry -> str)
    (all_column_mappings : dict)
    (all_column_feedback : gmap str (list mapping_entry))
    (log : list str) :
  NoDup (dict_keys all_column_mappings) ->
  exists refined log',
    process_feedback_for_all_columns llm json_loads json_dumps
      all_column_mappings all_column_feedback log = (Ok refined, log')
    /\ dict_keys refined = dict_keys all_column_mappings
    /\ log' = log ++ match llm with
                     | Some _ =>
                         map (refinement_prompt_of json_dumps
                                all_column_feedback)
                             (List.filter (has_feedback all_column_feedback)
                                          all_column_mappings)
                     | None => []
                     end
    /\ forall other_feedback : gmap str (list mapping_entry),
        (forall k, k ∈ dict_keys all_column_mappings ->
                   other_feedback !! k = all_column_feedback !! k) ->
        process_feedback_for_all_columns llm json_loads json_dumps
          all_column_mappings other_feedback log = (Ok refined, log').
Proof.
  intros Hnd. unfold process_feedback_for_all_columns.
  destruct (refine_items_returns llm json_loads json_dumps
              all_column_feedback all_column_mappings [] log)
    as (d' & Hrun & Hkeys & _).
  eexists d', _. split; [exact Hrun|]. split; [by apply Hkeys|].
  split; [done|].
  intros F' Hagree. by rewrite (refine_items_ext _ _ _ all_column_feedback).
Qed.

Lemma refinement_keeps_key_set_witness :
  NoDup (dict_keys example_mappings) /\
  exists refined log',
    process_feedback_for_all_columns (Some partial_client)
      json_loads_fragment json_dumps_fragment
      example_mappings example_feedback [] = (Ok refined, log')
    /\ dict_keys refined = [col_maker; col_label]
    /\ process_feedback_for_all_columns (Some partial_client)
         json_loads_fragment json_dumps_fragment
         example_mappings example_feedback_stray [] = (Ok refined, log').
Proof.
  split; [exact example_mappings_distinct|].
  destruct (refinement_keeps_key_set (Some partial_client)
              json_loads_fragment json_dumps_fragment
              example_mappings example_feedback []
              example_mappings_distinct)
    as (refined & log' & Hrun & Hkeys & _ & Hother).
  exists refined, log'. split; [exact Hrun|]. split; [exact Hkeys|].
  apply Hother. intros k Hk.
  unfold example_feedback_stray. apply lookup_insert_ne.
  intros <-. apply list_elem_of_In in Hk. vm_compute in Hk.
  destruct Hk as [Hk|[Hk|[]]]; discriminate Hk.
Defined.

(** ** The claims on column clustering *)

Section ClusteringProperties.

Context (actual : list str).

Lemma columns_of_clusters groups :
  flat_map (fun cluster => match cluster with JList l => l | _ => [] end)
           (clusters_of groups)
  = map JString (concat groups).
Proof.
  induction groups as [|g groups IH]; simpl; [done|].
  by rewrite IH, map_app.
Qed.

Lemma set_type_error_strings l : set_type_error (map JString l) = None.
Proof. induction l as [|c l IH]; simpl; done. Qed.

Lemma names_of_strings l : names_of (map JString l) = l.
Proof.
  induction l as [|c l IH]; [done|].
  change (names_of (map JString (c :: l)))
    with (c :: names_of (map JString l)).
  by rewrite IH.
Qed.

Lemma filter_actual_strings g :
  filter (fun col => is_actual actual col = true) (map JString g)
  = map JString (filter (fun c => c ∈ actual) g).
Proof.
  induction g as [|c g IH]; simpl; [done|].
  rewrite !filter_cons, IH. simpl. unfold str_in.
  destruct (decide (c ∈ actual)) as [Hc|Hc].
  - by rewrite decide_True by by apply bool_decide_eq_true_2.
  - by rewrite decide_False by by rewrite bool_decide_eq_false_2.
Qed.

Lemma filter_clusters groups :
  map (fun cluster =>
         match cluster with
         | JList l => JList (filter (fun col => is_actual actual col = true) l)
         | other => other
         end) (clusters_of groups)
  = clusters_of (map (filter (fun c => c ∈ actual)) groups).
Proof.
  induction groups as [|g groups IH]; simpl; [done|].
  by rewrite IH, filter_actual_strings.
Qed.

Lemma filter_all_id {A} (P : A -> Prop) `{forall x, Decision (P x)} l :
  Forall P l -> filter P l = l.
Proof.
  induction 1 as [|x l Hx Hl IH]; [done|].
  by rewrite filter_cons, decide_True, IH.
Qed.

Lemma no_extra_all_actual l :
  filter (fun col => is_actual actual col = false) (map JString l) = [] ->
  Forall (fun c => c ∈ actual) l.
Proof.
  induction l as [|c l IH]; simpl; [constructor|].
  rewrite filter_cons. simpl. unfold str_in.
  destruct (decide (c ∈ actual)) as [Hc|Hc].
  - rewrite decide_False by by rewrite bool_decide_eq_true_2.
    intros Hl. constructor; [done | by apply IH].
  - by rewrite decide_True by by rewrite bool_decide_eq_false_2.
Qed.

Lemma filter_groups_id groups :
  Forall (fun c => c ∈ actual) (concat groups) ->
  map (filter (fun c => c ∈ actual)) groups = groups.
Proof.
  induction groups as [|g groups IH]; simpl; [done|].
  rewrite Forall_app. intros [Hg Hgs].
  by rewrite IH, filter_all_id.
Qed.

Lemma filter_singletons missing :
  Forall (fun c => c ∈ actual) missing ->
  map (filter (fun c => c ∈ actual)) (map (fun c => [c]) missing)
  = map (fun c => [c]) missing.
Proof.
  induction 1 as [|c l Hc Hl IH]; simpl; [done|].
  rewrite IH, filter_cons, decide_True by done. done.
Qed.

Lemma clusters_of_app g1 g2 :
  clusters_of (g1 ++ g2) = clusters_of g1 ++ clusters_of g2.
Proof. unfold clusters_of. by rewrite map_app. Qed.

Lemma clusters_of_singletons missing :
  clusters_of (map (fun c => [c]) missing) = map singleton_cluster missing.
Proof. unfold clusters_of. rewrite map_map. by apply map_ext. Qed.

End ClusteringProperties.

(** C5: when the answer decodes to a list of lists of names, the result
    is the answer's groups in their order, each reduced to those of its
    names that are eligible (the others dropped, the rest kept in their
    order), followed by one singleton group for every eligible column
    that no group of the answer names, each such column once. *)
Theorem clustering_repairs_partition
    (json_loads : str -> option json) (response : str)
    (column_info : list column_info_entry) (groups : list (list str)) :
  json_loads (strip_code_fences response) = Some (JList (clusters_of groups)) ->
  let actual := map column_name column_info in
  exists missing : list str,
    NoDup missing /\
    (forall c, c ∈ missing <-> c ∈ actual /\ c ∉ concat groups) /\
    parse_llm_clustering_response json_loads response column_info
    = Ok (clusters_of (map (filter (fun c => c ∈ actual)) groups
                       ++ map (fun c => [c]) missing)).
Proof.
  intros Hloads actual.
  set (missing := list_difference (remove_dups actual) (concat groups)).
  assert (Hmissing : forall c, c ∈ missing <-> c ∈ actual /\ c ∉ concat groups).
  { intros c. unfold missing.
    by rewrite list_elem_of_difference, elem_of_remove_dups. }
  assert (Hactual : Forall (fun c => c ∈ actual) missing).
  { apply Forall_forall. intros c Hc. by apply Hmissing. }
  exists missing. split; [|split; [exact Hmissing|]].
  { apply NoDup_list_difference, NoDup_remove_dups. }
  unfold parse_llm_clustering_response. rewrite Hloads.
  rewrite columns_of_clusters, set_type_error_strings, names_of_strings.
  fold actual. fold missing. f_equal.
  assert (Hstep : match missing with
                  | [] => clusters_of groups
                  | _ :: _ => clusters_of groups ++ map singleton_cluster missing
                  end = clusters_of (groups ++ map (fun c => [c]) missing)).
  { rewrite clusters_of_app, clusters_of_singletons.
    destruct missing; [by rewrite app_nil_r | done]. }
  rewrite Hstep.
  destruct (filter (fun col => is_actual actual col = false)
                   (map JString (concat groups))) as [|x extra] eqn:Hextra.
  - apply no_extra_all_actual in Hextra.
    by rewrite (filter_groups_id actual groups Hextra).
  - rewrite filter_clusters, map_app. by rewrite filter_singletons.
Qed.

Lemma clustering_repairs_partition_witness :
  json_loads_fragment (strip_code_fences answer_two_of_three)
  = Some (JList (clusters_of [[py "brand"; py "maker"; py "vendor"]])) /\
  exists missing : list str,
    NoDup missing /\
    (forall c, c ∈ missing <->
               c ∈ map column_name example_columns /\
               c ∉ concat [[py "brand"; py "maker"; py "vendor"]]) /\
    parse_llm_clustering_response json_loads_fragment answer_two_of_three
      example_columns
    = Ok (clusters_of
            (map (filter (fun c => c ∈ map column_name example_columns))
                 [[py "brand"; py "maker"; py "vendor"]]
             ++ map (fun c => [c]) missing)).
Proof.
  split; [reflexivity|].
  apply (clustering_repairs_partition json_loads_fragment
           answer_two_of_three example_columns
           [[py "brand"; py "maker"; py "vendor"]] eq_refl).
Defined.

(** The same answer, computed: three eligible columns, an answer that
    groups two of them with a name that is no column; the unknown name
    is dropped and the third column is added as a group of its own. *)
Example clustering_repair_computed :
  parse_llm_clustering_response json_loads_fragment answer_two_of_three
    example_columns
  = Ok (clusters_of [[py "brand"; py "maker"]; [py "label"]]).
Proof. reflexivity. Qed.

(** C6 (as amended): when the answer is not JSON ([json.loads] raises a
    decoding error), the result is one singleton group per entry of
    [column_info], in order; when the answer decodes to a value that is
    not a list, the result is the empty list. *)
Theorem clustering_fallbacks
    (json_loads : str -> option json) (response : str)
    (column_info : list column_info_entry) :
  (json_loads (strip_code_fences response) = None ->
   parse_llm_clustering_response json_loads response column_info
   = Ok (map (fun info => JList [JString (column_name info)]) column_info)) /\
  (forall v : json,
      json_loads (strip_code_fences response) = Some v ->
      (forall items, v <> JList items) ->
      parse_llm_clustering_response json_loads response column_info = Ok []).
Proof.
  unfold parse_llm_clustering_response. split.
  - by intros ->.
  - intros v -> Hv. destruct v; try done. by destruct (Hv items).
Qed.

Lemma clustering_fallbacks_witness :
  (json_loads_fragment (strip_code_fences (py "Error: LLM not initialized"))
   = None /\
   parse_llm_clustering_response json_loads_fragment
     (py "Error: LLM not initialized") example_columns
   = Ok [JList [JString (py "brand")]; JList [JString (py "maker")];
         JList [JString (py "label")]]) /\
  (json_loads_fragment (strip_code_fences answer_object)
   = Some (JDict [(py "clusters",
                   JList [JList [JString (py "brand"); JString (py "maker")];
                          JList [JString (py "label")]])]) /\
   parse_llm_clustering_response json_loads_fragment answer_object
     example_columns = Ok []).
Proof.
  destruct (clustering_fallbacks json_loads_fragment
              (py "Error: LLM not initialized") example_columns) as [H1 _].
  destruct (clustering_fallbacks json_loads_fragment answer_object
              example_columns) as [_ H2].
  split; (split; [reflexivity|]).
  - exact (H1 eq_refl).
  - apply (H2 _ eq_refl). intros items. discriminate.
Defined.

(** C6 (counterexample): the answer is a JSON object that wraps the
    groups under a key.  It decodes, to a value that is not a list, and
    the result is the empty list: none of the three eligible columns is
    in it, where the claim promises one singleton group for each. *)
Lemma clustering_object_answer_gives_no_group :
  (exists fields,
      json_loads_fragment (strip_code_fences answer_object)
      = Some (JDict fields)) /\
  parse_llm_clustering_response json_loads_fragment answer_object
    example_columns = Ok [] /\
  parse_llm_clustering_response json_loads_fragment answer_object
    example_columns
  <> Ok (map (fun info => JList [JString (column_name info)]) example_columns).
Proof.
  split; [eexists; reflexivity|]. split; [reflexivity | discriminate].
Qed.

(** * Further properties of the code *)

(** ** The parser: what it returns, and what it returns for a mapping
    written in the line format *)

Lemma contains_app c a b : contains c (a ++ b) = contains c a || contains c b.
Proof. unfold contains. apply existsb_app. Qed.

Lemma split_fields_no_sep sep s :
  Forall (fun field => contains sep field = false) (split sep s).
Proof.
  induction s as [|c s IH]; simpl; [by repeat constructor|].
  destruct (N.eqb_spec c sep) as [->|Hne].
  - by constructor.
  - assert (Hc : (sep =? c) = false) by (apply N.eqb_neq; congruence).
    destruct (split sep s) as [|h t].
    + constructor; [|constructor]. simpl. by rewrite Hc.
    + apply Forall_cons in IH as [Hh Ht]. constructor; [|done].
      simpl. by rewrite Hc, Hh.
Qed.

Lemma split_no_sep sep s : contains sep s = false -> split sep s = [s].
Proof.
  induction s as [|c s IH]; simpl; [done|].
  rewrite orb_false_iff, N.eqb_sym. intros [-> Hs]. by rewrite IH.
Qed.

Lemma split_app_sep sep a b :
  contains sep a = false -> split sep (a ++ sep :: b) = a :: split sep b.
Proof.
  induction a as [|c a IH]; simpl.
  - by rewrite N.eqb_refl.
  - rewrite orb_false_iff, N.eqb_sym. intros [-> Ha]. by rewrite IH.
Qed.

Lemma cut_at_first_app sep l r :
  contains sep l = false -> cut_at_first sep (l ++ sep :: r) = Some (l, r).
Proof.
  induction l as [|c l IH]; simpl.
  - by rewrite N.eqb_refl.
  - rewrite orb_false_iff, N.eqb_sym. intros [-> Hl]. by rewrite IH.
Qed.

Lemma parse_mappings_omap text :
  parse_mappings text = omap spec_parse_line (split LF text).
Proof.
  rewrite parse_mappings_flat_map, <- flat_map_option_list.
  apply flat_map_ext, parse_line_spec.
Qed.

Lemma parse_mappings_elem e text :
  e ∈ parse_mappings text <->
  exists line, line ∈ split LF text /\ spec_parse_line line = Some e.
Proof. rewrite parse_mappings_omap, list_elem_of_omap. naive_solver. Qed.

Lemma spec_parse_line_Some line e :
  spec_parse_line line = Some e ->
  exists l r, line = l ++ EQUALS :: r /\ contains EQUALS l = false
              /\ strip l <> [] /\ strip r <> []
              /\ e = MappingEntry (strip l) (strip r).
Proof.
  unfold spec_parse_line.
  destruct (cut_at_first EQUALS line) as [[l r]|] eqn:Hcut; [|done].
  apply cut_at_first_Some in Hcut as [-> Hl].
  destruct (strip l) as [|a o] eqn:Ho; [done|].
  destruct (strip r) as [|b c] eqn:Hc; [done|].
  intros [= <-]. exists l, r. rewrite Ho, Hc. done.
Qed.

Lemma contains_strip c s : contains c s = false -> contains c (strip s) = false.
Proof. intros H. by apply contains_rstrip, contains_lstrip. Qed.

(** X1: every entry the parser returns has a non-empty, trimmed original
    value on one line without [=], and a non-empty, trimmed canonical
    value on one line. *)
Theorem parse_mappings_well_formed (text : str) (e : mapping_entry) :
  e ∈ parse_mappings text -> well_formed_entry e.
Proof.
  intros (line & Hline & Hspec)%parse_mappings_elem.
  pose proof (split_fields_no_sep LF text) as Hno.
  rewrite Forall_forall in Hno. specialize (Hno line Hline).
  apply spec_parse_line_Some in Hspec
    as (l & r & -> & Hl & Ho & Hc & ->).
  rewrite contains_app in Hno. apply orb_false_iff in Hno as [Hnl Hnr].
  simpl in Hnr.
  unfold well_formed_entry, plain_value. simpl.
  repeat split; try done; try apply strip_idem; by apply contains_strip.
Qed.

Lemma parse_mappings_well_formed_witness :
  MappingEntry (py "Pepsi Max") (py "Pepsi")
  ∈ parse_mappings (py "  Pepsi Max = Pepsi ") /\
  well_formed_entry (MappingEntry (py "Pepsi Max") (py "Pepsi")).
Proof.
  assert (H : MappingEntry (py "Pepsi Max") (py "Pepsi")
              ∈ parse_mappings (py "  Pepsi Max = Pepsi ")).
  { apply In_elem_of. vm_compute. auto. }
  split; [exact H|].
  exact (parse_mappings_well_formed _ _ H).
Defined.

Lemma join_lines_cons sep x y rest :
  join_lines sep (x :: y :: rest) = x ++ sep ++ join_lines sep (y :: rest).
Proof. done. Qed.

Lemma spec_parse_line_mapping_line e :
  well_formed_entry e -> spec_parse_line (mapping_line e) = Some e.
Proof.
  destruct e as [o c]. unfold well_formed_entry, plain_value, mapping_line.
  simpl. intros ((Ho & Hso & _) & Heq & (Hc & Hsc & _)).
  unfold spec_parse_line. rewrite cut_at_first_app by done.
  rewrite Hso, Hsc. destruct o; [done|]. by destruct c.
Qed.

Lemma mapping_line_no_LF e :
  well_formed_entry e -> contains LF (mapping_line e) = false.
Proof.
  destruct e as [o c]. unfold well_formed_entry, plain_value, mapping_line.
  simpl. intros ((_ & _ & Ho) & _ & (_ & _ & Hc)).
  rewrite contains_app. simpl. by rewrite Ho, Hc.
Qed.

(** X2: a list of well-formed entries written one per line as
    original=canonical is read back by the parser as the same list, in
    the same order. *)
Theorem parse_mappings_mapping_text (entries : list mapping_entry) :
  Forall well_formed_entry entries ->
  parse_mappings (mapping_text entries) = entries.
Proof.
  rewrite parse_mappings_omap. unfold mapping_text.
  induction 1 as [|e entries He Hes IH]; [done|].
  destruct entries as [|e' entries].
  - simpl. rewrite split_no_sep by by apply mapping_line_no_LF.
    simpl. by rewrite spec_parse_line_mapping_line.
  - change (map mapping_line (e :: e' :: entries))
      with (mapping_line e :: mapping_line e' :: map mapping_line entries).
    rewrite join_lines_cons.
    change ([LF] ++ ?x) with (LF :: x).
    rewrite split_app_sep by by apply mapping_line_no_LF.
    change (omap ?f (?x :: ?l))
      with (match f x with Some y => y :: omap f l | None => omap f l end).
    rewrite spec_parse_line_mapping_line by done.
    f_equal. exact IH.
Qed.

Lemma parse_mappings_mapping_text_witness :
  Forall well_formed_entry
    [MappingEntry (py "Pepsi Max") (py "Pepsi");
     MappingEntry (py "7 UP") (py "7UP = 7 UP")] /\
  parse_mappings
    (mapping_text [MappingEntry (py "Pepsi Max") (py "Pepsi");
                   MappingEntry (py "7 UP") (py "7UP = 7 UP")])
  = [MappingEntry (py "Pepsi Max") (py "Pepsi");
     MappingEntry (py "7 UP") (py "7UP = 7 UP")].
Proof.
  assert (H : Forall well_formed_entry
                [MappingEntry (py "Pepsi Max") (py "Pepsi");
                 MappingEntry (py "7 UP") (py "7UP = 7 UP")]).
  { repeat constructor; try discriminate; reflexivity. }
  split; [exact H|].
  exact (parse_mappings_mapping_text _ H).
Defined.

(** ** Trimming a text does not change the pairs read from it *)

Lemma parse_line_strip_eq a b : strip a = strip b -> parse_line a = parse_line b.
Proof. unfold parse_line. by intros ->. Qed.

Lemma strip_cons_space c s : isspace c = true -> strip (c :: s) = strip s.
Proof. intros E. unfold strip. simpl. by rewrite E. Qed.

Lemma rstrip_snoc_space p c : isspace c = true -> rstrip (p ++ [c]) = rstrip p.
Proof.
  intros E. induction p as [|a p IH]; simpl; [by rewrite E|].
  by rewrite IH.
Qed.

Lemma strip_lstrip_rstrip s : strip s = lstrip (rstrip s).
Proof. unfold strip. by rewrite lstrip_rstrip_comm. Qed.

Lemma strip_snoc_space p c : isspace c = true -> strip (p ++ [c]) = strip p.
Proof.
  intros E. by rewrite !strip_lstrip_rstrip, rstrip_snoc_space.
Qed.

Lemma split_cons sep c s :
  split sep (c :: s)
  = if c =? sep then [] :: split sep s
    else match split sep s with
         | h :: t => (c :: h) :: t
         | [] => [[c]]
         end.
Proof. done. Qed.

Lemma split_nonempty sep s : split sep s <> [].
Proof.
  destruct s as [|c s]; [done|]. rewrite split_cons.
  destruct (c =? sep); [done|]. by destruct (split sep s).
Qed.

Lemma parse_line_nil : parse_line [] = [].
Proof. done. Qed.

Lemma parse_lines_lstrip t :
  flat_map parse_line (split LF (lstrip t))
  = flat_map parse_line (split LF t).
Proof.
  induction t as [|c t IH]; [done|].
  simpl lstrip. destruct (isspace c) eqn:E; [|done].
  rewrite IH, split_cons. destruct (c =? LF); [done|].
  pose proof (split_nonempty LF t) as Hne.
  destruct (split LF t) as [|h r]; [done|].
  simpl. f_equal. apply parse_line_strip_eq. symmetry.
  by apply strip_cons_space.
Qed.

Lemma parse_line_snoc p c h :
  parse_line (p ++ c :: h) = parse_line ((p ++ [c]) ++ h).
Proof. by rewrite <- app_assoc. Qed.

(** The lines of the right-trimmed text against the lines of the text:
    the first lines read alike after any common beginning, and the other
    lines give the same pairs. *)
Lemma split_rstrip_parse t :
  match split LF (rstrip t), split LF t with
  | h1 :: r1, h2 :: r2 =>
      (forall p, parse_line (p ++ h1) = parse_line (p ++ h2))
      /\ flat_map parse_line r1 = flat_map parse_line r2
  | _, _ => False
  end.
Proof.
  induction t as [|c t IH]; [done|].
  change (rstrip (c :: t))
    with (match rstrip t with
          | [] => if isspace c then [] else [c]
          | r => c :: r
          end).
  rewrite (split_cons LF c t).
  destruct (rstrip t) as [|d r] eqn:Er.
  - change (split LF []) with [([] : str)] in IH.
    destruct (split LF t) as [|h2 r2]; [done|].
    destruct IH as [Hhead Hrest]. simpl in Hrest.
    destruct (isspace c) eqn:E.
    + change (split LF []) with [([] : str)].
      destruct (c =? LF).
      * split; [done|].
        pose proof (Hhead [] : parse_line [] = parse_line h2) as Hh0.
        simpl. by rewrite <- Hrest, app_nil_r, <- Hh0.
      * split; [|done]. intros p.
        rewrite parse_line_snoc, <- Hhead, !app_nil_r.
        apply parse_line_strip_eq. symmetry. by apply strip_snoc_space.
    + assert (Hc : (c =? LF) = false).
      { destruct (N.eqb_spec c LF) as [->|]; [done|done]. }
      rewrite split_cons, Hc. simpl. split; [|done].
      intros p. by rewrite (parse_line_snoc p c h2), <- Hhead, app_nil_r.
  - destruct (split LF (d :: r)) as [|h1 r1] eqn:Hs1; [done|].
    destruct (split LF t) as [|h2 r2]; [done|].
    destruct IH as [Hhead Hrest].
    rewrite split_cons, Hs1. destruct (c =? LF).
    + split; [done|].
      pose proof (Hhead [] : parse_line h1 = parse_line h2) as Hh0.
      simpl. by rewrite Hh0, Hrest.
    + split; [|done]. intros p.
      by rewrite !(parse_line_snoc p c), Hhead.
Qed.

Lemma parse_lines_rstrip t :
  flat_map parse_line (split LF (rstrip t))
  = flat_map parse_line (split LF t).
Proof.
  pose proof (split_rstrip_parse t) as H.
  destruct (split LF (rstrip t)) as [|h1 r1]; [done|].
  destruct (split LF t) as [|h2 r2]; [done|].
  destruct H as [Hhead Hrest].
  pose proof (Hhead [] : parse_line h1 = parse_line h2) as Hh0.
  simpl. by rewrite Hh0, Hrest.
Qed.

(** X3: the pairs read from a trimmed text are the pairs read from the
    text: the loop of [process_llm_response], which trims first, and the
    loops of [calculate_standardization_stats] and of the pages, which do
    not, extract the same list from any text. *)
Theorem parse_mappings_strip (text : str) :
  parse_mappings (strip text) = parse_mappings text.
Proof.
  rewrite !parse_mappings_flat_map. unfold strip.
  by rewrite parse_lines_rstrip, parse_lines_lstrip.
Qed.

(** X4: when a response holds at least one pair, the entry that
    [process_llm_response] returns for it reads back as exactly the
    pairs of the response, and processing the entry again returns it
    unchanged. *)
Theorem process_llm_response_keeps_pairs
    (json_loads : str -> option json) (output column_id : str) :
  parse_mappings output <> [] ->
  parse_mappings (process_llm_response json_loads (Some output) column_id)
  = parse_mappings output
  /\ process_llm_response json_loads
       (Some (process_llm_response json_loads (Some output) column_id))
       column_id
     = process_llm_response json_loads (Some output) column_id.
Proof.
  intros Hpairs.
  assert (Hstrip : parse_mappings (strip output) <> [])
    by by rewrite parse_mappings_strip.
  rewrite (process_llm_response_pairs _ _ _ Hstrip).
  split; [apply parse_mappings_strip|].
  rewrite process_llm_response_pairs by by apply strip_pairs_twice.
  apply strip_idem.
Qed.

Lemma process_llm_response_keeps_pairs_witness :
  parse_mappings (py "  Pepsi Max = Pepsi " ++ [LF; LF]) <> [] /\
  parse_mappings
    (process_llm_response json_loads_fragment
       (Some (py "  Pepsi Max = Pepsi " ++ [LF; LF])) col_brand)
  = [MappingEntry (py "Pepsi Max") (py "Pepsi")].
Proof.
  assert (H : parse_mappings (py "  Pepsi Max = Pepsi " ++ [LF; LF]) <> [])
    by by vm_compute.
  split; [exact H|].
  etransitivity.
  - exact (proj1 (process_llm_response_keeps_pairs json_loads_fragment
                    _ col_brand H)).
  - reflexivity.
Defined.

(** ** The error message read as a mapping *)

Lemma strip_between a m z :
  isspace a = false -> isspace z = false ->
  strip (a :: m ++ [z]) = a :: m ++ [z].
Proof.
  intros Ha Hz. unfold strip. rewrite (lstrip_id a _ Ha).
  change (a :: m ++ [z]) with ((a :: m) ++ z :: []).
  by rewrite (rstrip_app_keep _ _ _ Hz).
Qed.

Lemma could_not_parse_shape column_id :
  could_not_parse column_id
  = 69 :: (py "rror: Could not parse response for " ++ column_id
           ++ py ". Expected format: original_name=canonical_nam") ++ [101].
Proof.
  unfold could_not_parse.
  change (py "Error: Could not parse response for ")
    with (69 :: py "rror: Could not parse response for ").
  change (py ". Expected format: original_name=canonical_name")
    with (py ". Expected format: original_name=canonical_nam" ++ [101]).
  simpl. by rewrite <- !app_assoc.
Qed.

Lemma could_not_parse_cut column_id :
  could_not_parse column_id
  = (py "Error: Could not parse response for " ++ column_id
     ++ py ". Expected format: original_name")
    ++ EQUALS :: py "canonical_name".
Proof.
  unfold could_not_parse.
  change (py ". Expected format: original_name=canonical_name")
    with (py ". Expected format: original_name"
          ++ EQUALS :: py "canonical_name").
  by rewrite <- !app_assoc.
Qed.

Lemma error_original_shape column_id :
  py "Error: Could not parse response for " ++ column_id
  ++ py ". Expected format: original_name"
  = 69 :: (py "rror: Could not parse response for " ++ column_id
           ++ py ". Expected format: original_nam") ++ [101].
Proof.
  change (py "Error: Could not parse response for ")
    with (69 :: py "rror: Could not parse response for ").
  change (py ". Expected format: original_name")
    with (py ". Expected format: original_nam" ++ [101]).
  simpl. by rewrite <- !app_assoc.
Qed.

(** X5: for a column id on one line and without [=], the message that
    [process_llm_response] returns when it finds nothing is itself read
    by the parser as one pair, cut at the [=] of its last words; so the
    pages show an error entry as a one-row mapping, and processing the
    message again returns it unchanged. *)
Theorem error_entry_reads_as_pair
    (json_loads : str -> option json) (column_id : str) :
  contains LF column_id = false ->
  contains EQUALS column_id = false ->
  parse_mappings (could_not_parse column_id)
  = [MappingEntry
       (py "Error: Could not parse response for " ++ column_id
        ++ py ". Expected format: original_name")
       (py "canonical_name")]
  /\ forall other_id,
      process_llm_response json_loads (Some (could_not_parse column_id))
        other_id
      = could_not_parse column_id.
Proof.
  intros Hlf Heq.
  assert (Hparse : parse_mappings (could_not_parse column_id)
    = [MappingEntry
         (py "Error: Could not parse response for " ++ column_id
          ++ py ". Expected format: original_name")
         (py "canonical_name")]).
  { assert (HstripL :
      strip (py "Error: Could not parse response for " ++ column_id
             ++ py ". Expected format: original_name")
      = py "Error: Could not parse response for " ++ column_id
        ++ py ". Expected format: original_name").
    { rewrite error_original_shape. by apply strip_between. }
    assert (Hline :
      spec_parse_line
        ((py "Error: Could not parse response for " ++ column_id
          ++ py ". Expected format: original_name")
         ++ EQUALS :: py "canonical_name")
      = Some (MappingEntry
                (py "Error: Could not parse response for " ++ column_id
                 ++ py ". Expected format: original_name")
                (py "canonical_name"))).
    { unfold spec_parse_line. rewrite cut_at_first_app.
      - rewrite HstripL.
        change (strip (py "canonical_name")) with (py "canonical_name").
        rewrite error_original_shape. reflexivity.
      - rewrite !contains_app, Heq. reflexivity. }
    rewrite parse_mappings_omap, could_not_parse_cut.
    rewrite split_no_sep.
    - change (omap spec_parse_line [?x])
        with (match spec_parse_line x with Some y => [y] | None => [] end).
      by rewrite Hline.
    - rewrite contains_app.
      change (contains LF (EQUALS :: py "canonical_name")) with false.
      rewrite !contains_app, Hlf. reflexivity. }
  split; [exact Hparse|].
  intros other_id.
  assert (Hfix : strip (could_not_parse column_id) = could_not_parse column_id).
  { rewrite could_not_parse_shape. by apply strip_between. }
  rewrite process_llm_response_pairs; [exact Hfix|].
  rewrite Hfix, Hparse. done.
Qed.

Lemma error_entry_reads_as_pair_witness :
  contains LF col_maker = false /\ contains EQUALS col_maker = false /\
  parse_mappings (could_not_parse col_maker)
  = [MappingEntry
       (py "Error: Could not parse response for " ++ col_maker
        ++ py ". Expected format: original_name")
       (py "canonical_name")].
Proof.
  split; [reflexivity|]. split; [reflexivity|].
  exact (proj1 (error_entry_reads_as_pair json_loads_fragment col_maker
                  eq_refl eq_refl)).
Defined.

(** ** Standardization statistics *)

Lemma length_remove_dups_le {A} `{EqDecision A} (l : list A) :
  (length (remove_dups l) <= length l)%nat.
Proof.
  induction l as [|x l IH]; simpl; [done|].
  destruct (decide_rel elem_of x l); simpl; lia.
Qed.

Lemma length_remove_dups_pos {A} `{EqDecision A} (l : list A) :
  l <> [] -> (1 <= length (remove_dups l))%nat.
Proof.
  destruct l as [|x l]; [done|]. intros _.
  assert (Hx : x ∈ remove_dups (x :: l)).
  { apply elem_of_remove_dups. by left. }
  destruct (remove_dups (x :: l)); [by apply elem_of_nil in Hx | simpl; lia].
Qed.

Lemma remove_dups_NoDup_id {A} `{EqDecision A} (l : list A) :
  NoDup l -> remove_dups l = l.
Proof.
  induction 1 as [|x l Hx Hl IH]; simpl; [done|].
  destruct (decide_rel elem_of x l); [done|]. by rewrite IH.
Qed.

Lemma calculate_standardization_stats_Some text :
  parse_mappings text <> [] ->
  calculate_standardization_stats text
  = Some (Stats
            (length (remove_dups (map brand_name (parse_mappings text))))
            (length (remove_dups (map classified_as (parse_mappings text))))
            (Z.of_nat
               (length (remove_dups (map brand_name (parse_mappings text))))
             - Z.of_nat
                 (length
                    (remove_dups (map classified_as (parse_mappings text)))))%Z).
Proof.
  unfold calculate_standardization_stats.
  by destruct (parse_mappings text).
Qed.

(** X6: [calculate_standardization_stats] returns nothing exactly when
    no pair is read from the text; otherwise both counts lie between 1
    and the number of pairs (so the guard against a zero original count
    is never needed), and the reduction, their difference, lies strictly
    between minus and plus that number. *)
Theorem standardization_stats_bounds (text : str) :
  match calculate_standardization_stats text with
  | None => parse_mappings text = []
  | Some stats =>
      let n := length (parse_mappings text) in
      (1 <= original_count stats <= n)%nat
      /\ (1 <= standardized_count stats <= n)%nat
      /\ reduction stats
         = (Z.of_nat (original_count stats)
            - Z.of_nat (standardized_count stats))%Z
      /\ (- Z.of_nat n < reduction stats < Z.of_nat n)%Z
  end.
Proof.
  destruct (parse_mappings text) as [|e es] eqn:Hp.
  - unfold calculate_standardization_stats. by rewrite Hp.
  - assert (Hne : parse_mappings text <> []) by by rewrite Hp.
    rewrite (calculate_standardization_stats_Some text Hne). rewrite Hp.
    cbv zeta. cbn [original_count standardized_count reduction].
    pose proof (length_remove_dups_le (map brand_name (e :: es))) as H1.
    pose proof (length_remove_dups_le (map classified_as (e :: es))) as H2.
    pose proof (length_remove_dups_pos (map brand_name (e :: es))) as H3.
    pose proof (length_remove_dups_pos (map classified_as (e :: es))) as H4.
    rewrite length_map in H1, H2.
    specialize (H3 ltac:(done)). specialize (H4 ltac:(done)).
    repeat split; lia.
Qed.

(** X7: when no original value is repeated in the text, the original
    count is the number of pairs and the reduction is not negative and
    smaller than the original count. *)
Theorem standardization_stats_distinct (text : str) :
  parse_mappings text <> [] ->
  NoDup (map brand_name (parse_mappings text)) ->
  exists stats,
    calculate_standardization_stats text = Some stats
    /\ original_count stats = length (parse_mappings text)
    /\ (0 <= reduction stats < Z.of_nat (original_count stats))%Z.
Proof.
  intros Hne Hnd.
  rewrite (calculate_standardization_stats_Some text Hne).
  eexists. split; [done|].
  cbn [original_count standardized_count reduction].
  rewrite (remove_dups_NoDup_id _ Hnd), !length_map.
  pose proof (length_remove_dups_le (map classified_as (parse_mappings text)))
    as H2.
  pose proof (length_remove_dups_pos (map classified_as (parse_mappings text)))
    as H4.
  rewrite length_map in H2.
  assert (map classified_as (parse_mappings text) <> []) as Hc
    by by destruct (parse_mappings text).
  specialize (H4 Hc). split; [done|]. lia.
Qed.

Lemma standardization_stats_distinct_witness :
  parse_mappings (py "Pepsi=Pepsi" ++ [LF] ++ py "PEPSI=Pepsi") <> [] /\
  NoDup (map brand_name
           (parse_mappings (py "Pepsi=Pepsi" ++ [LF] ++ py "PEPSI=Pepsi"))) /\
  exists stats,
    calculate_standardization_stats
      (py "Pepsi=Pepsi" ++ [LF] ++ py "PEPSI=Pepsi") = Some stats
    /\ original_count stats = 2%nat
    /\ (0 <= reduction stats < Z.of_nat (original_count stats))%Z.
Proof.
  assert (H1 : parse_mappings (py "Pepsi=Pepsi" ++ [LF] ++ py "PEPSI=Pepsi")
               <> []) by by vm_compute.
  assert (H2 : NoDup (map brand_name
             (parse_mappings (py "Pepsi=Pepsi" ++ [LF] ++ py "PEPSI=Pepsi")))).
  { apply (bool_decide_unpack _). by vm_compute. }
  split; [exact H1|]. split; [exact H2|].
  exact (standardization_stats_distinct _ H1 H2).
Defined.

(** ** The shape of a cleaned name *)

Lemma collapsed_spaces p y :
  collapsed p y = true -> Forall (fun c => isspace c = true -> c = SPACE) y.
Proof.
  revert p. induction y as [|c y IH]; intros p; simpl; [constructor|].
  destruct (isspace c) eqn:E.
  - rewrite !andb_true_iff, N.eqb_eq. intros [[-> _] H].
    constructor; [done | by apply (IH true)].
  - intros H. constructor; [intros ?; congruence | by apply (IH false)].
Qed.

Lemma collapsed_adjacent p y l1 a b l2 :
  collapsed p y = true -> y = l1 ++ a :: b :: l2 ->
  isspace a = true -> isspace b = false.
Proof.
  revert p y. induction l1 as [|c l1 IH]; intros p y Hy -> Ha.
  - simpl in Hy. rewrite Ha in Hy.
    apply andb_true_iff in Hy as [_ Hy].
    destruct (isspace b); [|done]. by rewrite andb_false_r in Hy.
  - simpl in Hy. destruct (isspace c).
    + apply andb_true_iff in Hy as [_ Hy]. by apply (IH true _ Hy).
    + by apply (IH false _ Hy).
Qed.

(** X8: a cleaned name has no whitespace but single spaces between other
    characters: every whitespace character of it is the space, no
    whitespace character is followed by another, and it neither starts
    nor ends with one. *)
Theorem clean_brand_name_normal_form (x : str) :
  let y := clean_brand_name x in
  Forall (fun c => isspace c = true -> c = SPACE) y
  /\ (forall l1 a b l2,
         y = l1 ++ a :: b :: l2 -> isspace a = true -> isspace b = false)
  /\ lstrip y = y
  /\ rstrip y = y.
Proof.
  intros y.
  assert (Hc : collapsed false y = true).
  { apply collapsed_rstrip, collapsed_lstrip, collapse_from_collapsed. }
  split; [by apply (collapsed_spaces false)|]. split; [|split].
  - intros l1 a b l2. by apply (collapsed_adjacent false).
  - apply lstrip_rstrip_lstrip.
  - apply rstrip_idem.
Qed.

Lemma length_clean_invalid_escapes_ge s :
  (length s <= length (clean_invalid_escapes s))%nat.
Proof.
  induction s as [|c s IH]; simpl; [done|].
  destruct ((c =? BACKSLASH) && lookahead_invalid s); simpl; lia.
Qed.

(** X9: [clean_invalid_escapes] returns its argument unchanged exactly
    when every backslash of the argument is followed by a character of
    the look-ahead class; it never shortens a text. *)
Theorem clean_invalid_escapes_fixed_iff (s : str) :
  (clean_invalid_escapes s = s <-> escapes_valid s = true)
  /\ (length s <= length (clean_invalid_escapes s))%nat.
Proof.
  split; [|apply length_clean_invalid_escapes_ge].
  split; [|apply clean_invalid_escapes_fixed].
  intros Hfix. destruct (escapes_valid s) eqn:Hs; [done|].
  pose proof (backslashes_clean_gt s Hs) as Hgt. rewrite Hfix in Hgt. lia.
Qed.

(** ** The table of initial generation *)

Lemma starts_with_app p s : starts_with p (p ++ s) = true.
Proof.
  induction p as [|c p IH]; simpl; [by destruct s|].
  by rewrite N.eqb_refl.
Qed.

Lemma upto_last_last c s inside :
  upto_last c s = Some inside -> last inside = Some c.
Proof.
  revert inside. induction s as [|d s IH]; intros inside; simpl; [done|].
  destruct (upto_last c s) as [u|] eqn:Hu.
  - intros [= <-]. specialize (IH u eq_refl).
    destruct u; [done|]. exact IH.
  - destruct (N.eqb_spec d c) as [->|]; [|done]. by intros [= <-].
Qed.

Lemma could_not_parse_is_error column_id :
  starts_with (py "Error: ") (could_not_parse column_id) = true.
Proof.
  unfold could_not_parse.
  change (py "Error: Could not parse response for ")
    with (py "Error: " ++ py "Could not parse response for ").
  rewrite <- app_assoc. apply starts_with_app.
Qed.

Lemma process_llm_response_kinds json_loads output column_id :
  entry_kinds json_loads (process_llm_response json_loads output column_id).
Proof.
  unfold process_llm_response. destruct output as [output|]; [|by left].
  destruct (parse_mappings (strip output)) as [|e es] eqn:Hp.
  - destruct (search_json_array (strip output)) as [array|] eqn:Hs;
      [|left; apply could_not_parse_is_error].
    destruct (json_loads array) as [decoded|] eqn:Hj;
      [|left; apply could_not_parse_is_error].
    right; right. unfold search_json_array in Hs.
    destruct (from_first LBRACKET (strip output)) as [after|]; [|done].
    destruct (upto_last RBRACKET after) as [inside|] eqn:Hu; [|done].
    injection Hs as <-. exists decoded, inside.
    split; [done|]. split; [done|]. by apply (upto_last_last _ after).
  - right; left. rewrite strip_idem, Hp. done.
Qed.

Lemma collected_value_kinds json_loads f :
  entry_kinds json_loads (collected_value json_loads f).
Proof.
  unfold collected_value.
  destruct (future_result f) as [[[id output] error]|e].
  - destruct (error_set error) as [e|].
    + left. apply starts_with_app.
    + apply process_llm_response_kinds.
  - left. apply starts_with_app.
Qed.

Lemma dict_set_elem k v k' v' d :
  (k, v) ∈ dict_set k' v' d -> (k, v) ∈ d \/ v = v'.
Proof.
  induction d as [|[k0 v0] d IH]; simpl; intros Hin.
  - apply elem_of_cons in Hin as [Heq|Hin]; [|by apply elem_of_nil in Hin].
    right. congruence.
  - destruct (str_eqb k0 k').
    + apply elem_of_cons in Hin as [Heq|Hin]; [right; congruence|].
      left. by right.
    + apply elem_of_cons in Hin as [Heq|Hin]; [left; rewrite Heq; by left|].
      destruct (IH Hin) as [?|?]; [left; by right | by right].
Qed.

Lemma fold_collect_elem json_loads fs d k v :
  (k, v) ∈ fold_left (collect json_loads) fs d ->
  (k, v) ∈ d \/ exists f, v = collected_value json_loads f.
Proof.
  revert d. induction fs as [|f fs IH]; intros d; simpl; [by left|].
  intros [Hin|Hf]%IH; [|by right].
  rewrite collect_eq in Hin.
  apply dict_set_elem in Hin as [Hin|Hv]; [by left|].
  right. by exists f.
Qed.

(** X10: every entry of the table returned by initial generation, in any
    order of completion, is a text that starts with the error marker, or
    a trimmed text from which at least one pair is read, or a bracketed
    text that [json.loads] accepts; in particular no entry is empty. *)
Theorem generation_entry_kinds
    (llm : option llm_client) (json_loads : str -> option json)
    (as_completed : list future -> list future)
    (tasks : list task) (column_id entry : str) :
  (column_id, entry)
  ∈ generate_mappings_for_all_columns llm json_loads as_completed tasks ->
  (starts_with (py "Error: ") entry = true
   \/ (parse_mappings entry <> [] /\ strip entry = entry)
   \/ (exists decoded inside,
          json_loads entry = Some decoded /\ entry = LBRACKET :: inside
          /\ last inside = Some RBRACKET))
  /\ entry <> [].
Proof.
  unfold generate_mappings_for_all_columns.
  destruct llm as [client|]; [|by intros ?%elem_of_nil].
  destruct tasks as [|t tasks]; [by intros ?%elem_of_nil|].
  intros [Hnil%elem_of_nil|[f ->]]%fold_collect_elem; [done|].
  pose proof (collected_value_kinds json_loads f) as Hkinds.
  split; [exact Hkinds|].
  destruct Hkinds as [H|[[H _]|(d & inside & _ & H & _)]];
    destruct (collected_value json_loads f); done.
Qed.

Lemma generation_entry_kinds_witness :
  (col_maker, py "Error: Connection error.")
  ∈ generate_mappings_for_all_columns (Some example_client)
      json_loads_fragment (@rev future) example_tasks /\
  starts_with (py "Error: ") (py "Error: Connection error.") = true.
Proof.
  assert (H : (col_maker, py "Error: Connection error.")
    ∈ generate_mappings_for_all_columns (Some example_client)
        json_loads_fragment (@rev future) example_tasks).
  { apply In_elem_of. vm_compute. auto. }
  split; [exact H|].
  destruct (generation_entry_kinds _ _ _ _ _ _ H) as [_ Hne].
  reflexivity.
Defined.

Lemma dict_set_new k v d : k ∉ dict_keys d -> dict_set k v d = d ++ [(k, v)].
Proof.
  induction d as [|[k0 v0] d IH]; simpl; [done|].
  rewrite not_elem_of_cons. intros [Hne Hk].
  unfold str_eqb. rewrite bool_decide_eq_false_2 by done. by rewrite IH.
Qed.

Lemma fold_collect_list json_loads fs d :
  NoDup (dict_keys d ++ map future_column_id fs) ->
  fold_left (collect json_loads) fs d
  = d ++ map (fun f => (future_column_id f, collected_value json_loads f)) fs.
Proof.
  revert d. induction fs as [|f fs IH]; intros d Hnd; simpl.
  - by rewrite app_nil_r.
  - assert (Hf : future_column_id f ∉ dict_keys d).
    { apply NoDup_app in Hnd as (_ & Hd & _). intros Hin.
      apply (Hd _ Hin). by left. }
    rewrite collect_eq, dict_set_new by done.
    rewrite IH.
    + by rewrite <- app_assoc.
    + unfold dict_keys. rewrite map_app. simpl.
      rewrite <- app_assoc. exact Hnd.
Qed.

(** X11: with one key per task, the tables returned under two orders of
    completion hold the same entries: each is a rearrangement of the
    other; and the table lists the columns in the order of completion. *)
Theorem generation_order_irrelevant
    (client : llm_client) (json_loads : str -> option json)
    (order1 order2 : list future -> list future) (tasks : list task) :
  (forall fs, order1 fs ≡ₚ fs) ->
  (forall fs, order2 fs ≡ₚ fs) ->
  NoDup (map task_column_id tasks) ->
  generate_mappings_for_all_columns (Some client) json_loads order1 tasks
  ≡ₚ generate_mappings_for_all_columns (Some client) json_loads order2 tasks
  /\ dict_keys
       (generate_mappings_for_all_columns (Some client) json_loads order1
          tasks)
     = map future_column_id (order1 (map (submit (Some client)) tasks)).
Proof.
  intros H1 H2 Hnd. unfold generate_mappings_for_all_columns.
  destruct tasks as [|t0 tasks'].
  { split; [done|]. simpl.
    assert (Hnil : order1 [] = []) by (apply Permutation_nil; by rewrite (H1 [])).
    by rewrite Hnil. }
  set (tasks := t0 :: tasks') in *.
  assert (Hids : forall order, (forall fs, order fs ≡ₚ fs) ->
            NoDup (dict_keys [] ++ map future_column_id
                     (order (map (submit (Some client)) tasks)))).
  { intros order Ho.
    change (NoDup (map future_column_id
                     (order (map (submit (Some client)) tasks)))).
    assert (Hp : map future_column_id
                   (order (map (submit (Some client)) tasks))
                 ≡ₚ map task_column_id tasks).
    { rewrite (Ho _). by rewrite submit_column_ids. }
    by rewrite Hp. }
  rewrite !fold_collect_list by auto.
  change ([] ++ ?x) with x. split.
  - apply Permutation_map. by rewrite (H1 _), (H2 _).
  - unfold dict_keys. rewrite map_map. by apply map_ext.
Qed.

Lemma id_permutation {A} (fs : list A) : (fun l : list A => l) fs ≡ₚ fs.
Proof. done. Qed.

Lemma generation_order_irrelevant_witness :
  NoDup (map task_column_id example_tasks) /\
  generate_mappings_for_all_columns (Some example_client)
    json_loads_fragment (@rev future) example_tasks
  ≡ₚ generate_mappings_for_all_columns (Some example_client)
       json_loads_fragment (fun fs => fs) example_tasks.
Proof.
  split; [exact example_tasks_distinct|].
  exact (proj1 (generation_order_irrelevant example_client
                  json_loads_fragment (@rev future) (fun fs => fs)
                  example_tasks rev_permutation id_permutation
                  example_tasks_distinct)).
Defined.

(** ** Refinement without feedback *)

Lemma refine_items_no_feedback
    (llm : option llm_client) (json_loads : str -> option json)
    (json_dumps : list mapping_entry -> str)
    (F : gmap str (list mapping_entry)) (items d : dict) (log : list str) :
  NoDup (dict_keys d ++ dict_keys items) ->
  Forall (fun item => has_feedback F item = false) items ->
  refine_items llm json_loads json_dumps F items d log = (Ok (d ++ items), log).
Proof.
  revert d. induction items as [|[k0 m0] items IH]; intros d Hnd Hno.
  - simpl. by rewrite app_nil_r.
  - apply Forall_cons in Hno as [H0 Hno].
    rewrite refine_items_cons, refine_column_no_feedback by done.
    assert (Hk : k0 ∉ dict_keys d).
    { apply NoDup_app in Hnd as (_ & Hd & _). intros Hin.
      apply (Hd _ Hin). by left. }
    rewrite dict_set_new by done. rewrite IH; [|unfold dict_keys|done].
    + by rewrite <- app_assoc.
    + rewrite map_app. simpl. rewrite <- app_assoc. exact Hnd.
Qed.

(** X12: when no column of the table has feedback in this round,
    refinement returns the table itself, entries and order unchanged,
    and sends nothing to the model. *)
Theorem refinement_without_feedback_is_identity
    (llm : option llm_client) (json_loads : str -> option json)
    (json_dumps : list mapping_entry -> str)
    (all_column_mappings : dict)
    (all_column_feedback : gmap str (list mapping_entry))
    (log : list str) :
  NoDup (dict_keys all_column_mappings) ->
  (forall column_id,
      column_id ∈ dict_keys all_column_mappings ->
      all_column_feedback !! column_id = None
      \/ all_column_feedback !! column_id = Some []) ->
  process_feedback_for_all_columns llm json_loads json_dumps
    all_column_mappings all_column_feedback log
  = (Ok all_column_mappings, log).
Proof.
  intros Hnd Hno. unfold process_feedback_for_all_columns.
  rewrite refine_items_no_feedback; [done|done|].
  apply Forall_forall. intros [k m] Hin.
  apply no_feedback_iff, Hno.
  change k with (fst (k, m)). unfold dict_keys.
  by apply (list_elem_of_fmap_2 fst).
Qed.

Lemma refinement_without_feedback_is_identity_witness :
  NoDup (dict_keys example_mappings) /\
  process_feedback_for_all_columns (Some example_client)
    json_loads_fragment json_dumps_fragment example_mappings
    (∅ : gmap str (list mapping_entry)) []
  = (Ok example_mappings, []).
Proof.
  split; [exact example_mappings_distinct|].
  apply (refinement_without_feedback_is_identity (Some example_client)
           json_loads_fragment json_dumps_fragment example_mappings
           ∅ [] example_mappings_distinct).
  intros column_id _. left. apply lookup_empty.
Defined.

(** ** The groups returned by the clustering parser *)

Lemma parse_clustering_well_formed
    (json_loads : str -> option json) (response : str)
    (column_info : list column_info_entry) (groups : list (list str)) :
  json_loads (strip_code_fences response) = Some (JList (clusters_of groups)) ->
  parse_llm_clustering_response json_loads response column_info
  = Ok (clusters_of
          (map (filter (fun c => c ∈ map column_name column_info)) groups
           ++ map (fun c => [c])
                (list_difference (remove_dups (map column_name column_info))
                                 (concat groups)))).
Proof.
  intros Hloads.
  set (actual := map column_name column_info).
  set (missing := list_difference (remove_dups actual) (concat groups)).
  assert (Hactual : Forall (fun c => c ∈ actual) missing).
  { apply Forall_forall. intros c Hc. unfold missing in Hc.
    rewrite list_elem_of_difference, elem_of_remove_dups in Hc.
    by destruct Hc. }
  unfold parse_llm_clustering_response. rewrite Hloads.
  rewrite columns_of_clusters, set_type_error_strings, names_of_strings.
  fold actual. fold missing. f_equal.
  assert (Hstep : match missing with
                  | [] => clusters_of groups
                  | _ :: _ => clusters_of groups ++ map singleton_cluster missing
                  end = clusters_of (groups ++ map (fun c => [c]) missing)).
  { rewrite clusters_of_app, clusters_of_singletons.
    destruct missing; [by rewrite app_nil_r | done]. }
  rewrite Hstep.
  destruct (filter (fun col => is_actual actual col = false)
                   (map JString (concat groups))) as [|x extra] eqn:Hextra.
  - apply no_extra_all_actual in Hextra.
    by rewrite (filter_groups_id actual groups Hextra).
  - rewrite filter_clusters, map_app. by rewrite filter_singletons.
Qed.

Lemma concat_map_filter {A} (P : A -> Prop) `{forall x, Decision (P x)}
    (groups : list (list A)) :
  concat (map (filter P) groups) = filter P (concat groups).
Proof.
  induction groups as [|g groups IH]; simpl; [done|].
  by rewrite filter_app, IH.
Qed.

Lemma concat_singletons {A} (l : list A) : concat (map (fun c => [c]) l) = l.
Proof. induction l as [|x l IH]; simpl; [done | by rewrite IH]. Qed.

Lemma lookup_of_map {A B} (f : A -> B) (l : list A) (i : nat) :
  map f l !! i = f <$> l !! i.
Proof.
  revert i. induction l as [|x l IH]; intros [|i]; simpl; done.
Qed.

(** X13: when the answer decodes to a list of lists of names, the groups
    returned name exactly the eligible columns: every name in a returned
    group is an eligible column and every eligible column is in a
    returned group; no group of the answer is dropped, even one that is
    left empty: every group of the answer is found at its own position,
    reduced to its eligible names in their order, and every group after
    those holds a single column; and if no name occurs twice in the
    answer, no name occurs twice in the result, which is then a
    partition of the eligible columns. *)
Theorem clustering_result_names_eligible
    (json_loads : str -> option json) (response : str)
    (column_info : list column_info_entry) (groups : list (list str)) :
  json_loads (strip_code_fences response) = Some (JList (clusters_of groups)) ->
  exists result : list (list str),
    parse_llm_clustering_response json_loads response column_info
    = Ok (clusters_of result)
    /\ (forall c, c ∈ concat result <-> c ∈ map column_name column_info)
    /\ (forall i g, groups !! i = Some g ->
          result !! i
          = Some (filter (fun c => c ∈ map column_name column_info) g))
    /\ (forall i g, (length groups <= i)%nat -> result !! i = Some g ->
          exists c, g = [c])
    /\ (NoDup (concat groups) -> NoDup (concat result)).
Proof.
  intros Hloads.
  rewrite (parse_clustering_well_formed _ _ _ _ Hloads).
  set (actual := map column_name column_info).
  set (missing := list_difference (remove_dups actual) (concat groups)).
  exists (map (filter (fun c => c ∈ actual)) groups
          ++ map (fun c => [c]) missing).
  split; [done|].
  assert (Hconcat : concat (map (filter (fun c => c ∈ actual)) groups
                            ++ map (fun c => [c]) missing)
                    = filter (fun c => c ∈ actual) (concat groups) ++ missing).
  { by rewrite concat_app, concat_map_filter, concat_singletons. }
  assert (Hmissing : forall c, c ∈ missing <-> c ∈ actual /\ c ∉ concat groups).
  { intros c. unfold missing.
    by rewrite list_elem_of_difference, elem_of_remove_dups. }
  rewrite Hconcat. split; [|split; [|split]].
  - intros c. rewrite elem_of_app, list_elem_of_filter, Hmissing.
    destruct (decide (c ∈ concat groups)); tauto.
  - intros i g Hg.
    rewrite lookup_app_l
      by (rewrite length_map; by apply lookup_lt_Some in Hg).
    by rewrite lookup_of_map, Hg.
  - intros i g Hi.
    rewrite lookup_app_r by (by rewrite length_map).
    rewrite lookup_of_map.
    destruct (missing !! _) as [c|]; [|done].
    intros [= <-]. by exists c.
  - intros Hnd. apply NoDup_app. split; [by apply NoDup_filter|]. split.
    + intros c [_ Hc]%list_elem_of_filter Hm. by apply Hmissing in Hm as [_ Hm].
    + apply NoDup_list_difference, NoDup_remove_dups.
Qed.

Lemma clustering_result_names_eligible_witness :
  json_loads_fragment (strip_code_fences answer_two_of_three)
  = Some (JList (clusters_of [[py "brand"; py "maker"; py "vendor"]])) /\
  exists result : list (list str),
    parse_llm_clustering_response json_loads_fragment answer_two_of_three
      example_columns = Ok (clusters_of result)
    /\ (forall c, c ∈ concat result <-> c ∈ map column_name example_columns)
    /\ result !! 0%nat
       = Some (filter (fun c => c ∈ map column_name example_columns)
                 [py "brand"; py "maker"; py "vendor"]).
Proof.
  split; [reflexivity|].
  destruct (clustering_result_names_eligible json_loads_fragment
              answer_two_of_three example_columns
              [[py "brand"; py "maker"; py "vendor"]] eq_refl)
    as (result & Hparse & Hnames & Hgroups & _).
  exists result. split; [exact Hparse|]. split; [exact Hnames|].
  by apply Hgroups.
Defined.

Lemma set_type_error_nested values v :
  v ∈ values ->
  match v with JList _ | JDict _ => True | _ => False end ->
  set_type_error values <> None.
Proof.
  induction values as [|w values IH]; intros Hin Hv.
  - by apply elem_of_nil in Hin.
  - apply elem_of_cons in Hin as [<-|Hin].
    + by destruct v.
    + destruct w; simpl; try done; by apply IH.
Qed.

(** X14: when the answer decodes to a list in which some group holds a
    nested list or an object, the parser does not return: building the
    set of names raises (a [TypeError], which is not the decoding error
    that the function handles). *)
Theorem clustering_nested_value_raises
    (json_loads : str -> option json) (response : str)
    (column_info : list column_info_entry)
    (clusters items : list json) (v : json) :
  json_loads (strip_code_fences response) = Some (JList clusters) ->
  JList items ∈ clusters ->
  v ∈ items ->
  match v with JList _ | JDict _ => True | _ => False end ->
  exists e, parse_llm_clustering_response json_loads response column_info
            = Raise e.
Proof.
  intros Hloads Hcluster Hv Hnested.
  unfold parse_llm_clustering_response. rewrite Hloads.
  set (all := flat_map _ clusters).
  assert (Hall : v ∈ all).
  { apply list_elem_of_In, in_flat_map. exists (JList items).
    split; by apply list_elem_of_In. }
  pose proof (set_type_error_nested all v Hall Hnested) as Herr.
  destruct (set_type_error all) as [e|]; [by exists e | done].
Qed.

Lemma clustering_nested_value_raises_witness :
  json_loads_fragment (strip_code_fences (py "[[[1]]]"))
  = Some (JList [JList [JList [JNumber (py "1")]]]) /\
  exists e, parse_llm_clustering_response json_loads_fragment (py "[[[1]]]")
              example_columns = Raise e.
Proof.
  split; [reflexivity|].
  apply (clustering_nested_value_raises json_loads_fragment (py "[[[1]]]")
           example_columns [JList [JList [JNumber (py "1")]]]
           [JList [JNumber (py "1")]] (JList [JNumber (py "1")]) eq_refl).
  - by left.
  - by left.
  - exact I.
Defined.

(** ** Splitting on a separator of several characters *)

Section SplitStr.

Context (sep : str).

Lemma split_str_from_nil skip cur : split_str_from sep skip cur [] = [rev cur].
Proof. done. Qed.

Lemma split_str_from_cons0 cur c s :
  split_str_from sep 0 cur (c :: s)
  = if starts_with sep (c :: s)
    then rev cur :: split_str_from sep (length sep - 1) [] s
    else split_str_from sep 0 (c :: cur) s.
Proof. done. Qed.

Lemma split_str_from_skip x cur b :
  split_str_from sep (length x) cur (x ++ b) = split_str_from sep 0 cur b.
Proof.
  induction x as [|c x IH]; simpl; [by destruct b | exact IH].
Qed.

(** The separator at the head of the input ends the current field. *)
Lemma split_str_from_match cur b :
  sep <> [] ->
  split_str_from sep 0 cur (sep ++ b) = rev cur :: split_str_from sep 0 [] b.
Proof.
  intros Hsep. destruct sep as [|c sep'] eqn:Es; [congruence|].
  change ((c :: sep') ++ b) with (c :: sep' ++ b).
  rewrite <- Es, split_str_from_cons0. rewrite Es.
  change (c :: sep' ++ b) with ((c :: sep') ++ b).
  rewrite starts_with_app. f_equal.
  change (length (c :: sep') - 1)%nat with (length sep' - 0)%nat.
  rewrite Nat.sub_0_r. rewrite <- Es. by rewrite split_str_from_skip.
Qed.

(** Where the separator starts at no position of [a], the characters of
    [a] all go to the current field. *)
Lemma split_str_from_nomatch a rest cur :
  (forall a1 c a2, a = a1 ++ c :: a2 ->
                   starts_with sep (c :: a2 ++ rest) = false) ->
  split_str_from sep 0 cur (a ++ rest)
  = split_str_from sep 0 (rev a ++ cur) rest.
Proof.
  revert cur. induction a as [|c a IH]; intros cur Hno; [done|].
  change ((c :: a) ++ rest) with (c :: a ++ rest).
  rewrite split_str_from_cons0, (Hno [] c a eq_refl).
  rewrite IH.
  - simpl. by rewrite <- app_assoc.
  - intros a1 d a2 ->. apply (Hno (c :: a1) d a2 eq_refl).
Qed.

Lemma has_substr_cons c s :
  has_substr sep (c :: s) = starts_with sep (c :: s) || has_substr sep s.
Proof. done. Qed.

Lemma has_substr_prefix s : starts_with sep s = true -> has_substr sep s = true.
Proof. intros H. destruct s; simpl; by rewrite H. Qed.

Lemma has_substr_app a b : has_substr sep (a ++ sep ++ b) = true.
Proof.
  induction a as [|c a IH].
  - apply has_substr_prefix. exact (starts_with_app sep b).
  - change ((c :: a) ++ sep ++ b) with (c :: a ++ sep ++ b).
    by rewrite has_substr_cons, IH, orb_true_r.
Qed.

Lemma has_substr_false s a1 c a2 :
  has_substr sep s = false -> s = a1 ++ c :: a2 ->
  starts_with sep (c :: a2) = false.
Proof.
  revert s. induction a1 as [|d a1 IH]; intros s Hs ->.
  - change ([] ++ c :: a2) with (c :: a2) in Hs.
    rewrite has_substr_cons in Hs. by apply orb_false_iff in Hs as [Hs _].
  - change ((d :: a1) ++ c :: a2) with (d :: a1 ++ c :: a2) in Hs.
    rewrite has_substr_cons in Hs. apply orb_false_iff in Hs as [_ Hs].
    by apply (IH _ Hs).
Qed.

Lemma split_str_none s : has_substr sep s = false -> split_str sep s = [s].
Proof.
  intros Hs. unfold split_str.
  rewrite <- (app_nil_r s) at 1.
  rewrite split_str_from_nomatch.
  - by rewrite split_str_from_nil, app_nil_r, rev_involutive.
  - intros a1 c a2 ->. rewrite app_nil_r.
    by apply (has_substr_false _ a1 c a2 Hs).
Qed.

Lemma split_str_first a b :
  sep <> [] ->
  (forall a1 c a2, a = a1 ++ c :: a2 ->
                   starts_with sep (c :: a2 ++ sep ++ b) = false) ->
  split_str sep (a ++ sep ++ b) = a :: split_str sep b.
Proof.
  intros Hsep Hno. unfold split_str.
  rewrite split_str_from_nomatch by done.
  rewrite split_str_from_match by done.
  by rewrite app_nil_r, rev_involutive.
Qed.

End SplitStr.

(** ** Column ids, sheet names and the standardized column *)

Lemma separator_not_in_hyphen_free a b a1 c a2 :
  contains HYPHEN a = false -> a = a1 ++ c :: a2 ->
  starts_with SEPARATOR (c :: a2 ++ SEPARATOR ++ b) = false.
Proof.
  intros Ha ->. rewrite contains_app in Ha.
  apply orb_false_iff in Ha as [_ Ha].
  change SEPARATOR with [SPACE; HYPHEN; SPACE].
  destruct a2 as [|d a2].
  - change (starts_with [SPACE; HYPHEN; SPACE]
              (c :: [] ++ [SPACE; HYPHEN; SPACE] ++ b))
      with ((SPACE =? c) && ((HYPHEN =? SPACE) && starts_with [SPACE] (HYPHEN :: SPACE :: b))).
    change (HYPHEN =? SPACE) with false. apply andb_false_r.
  - change (contains HYPHEN (c :: d :: a2))
      with ((HYPHEN =? c) || ((HYPHEN =? d) || contains HYPHEN a2)) in Ha.
    apply orb_false_iff in Ha as [_ Ha].
    apply orb_false_iff in Ha as [Hd _].
    change (starts_with [SPACE; HYPHEN; SPACE]
              (c :: (d :: a2) ++ [SPACE; HYPHEN; SPACE] ++ b))
      with ((SPACE =? c) && ((HYPHEN =? d)
            && starts_with [SPACE] (a2 ++ [SPACE; HYPHEN; SPACE] ++ b))).
    rewrite Hd. apply andb_false_r.
Qed.

Lemma SEPARATOR_nonempty : SEPARATOR <> [].
Proof. done. Qed.

(** X15: the column name read back from a column id.  For a group name
    without a hyphen, the id built from the group name and a column name
    gives the column name back when that name does not contain the
    separator; when it does, only what stands before the separator comes
    back. *)
Theorem column_name_of_make_column_id (group_name : str) :
  contains HYPHEN group_name = false ->
  (forall col, has_substr SEPARATOR col = false ->
     column_name_of (make_column_id group_name col) = col)
  /\ (forall col rest, contains HYPHEN col = false ->
        column_name_of (make_column_id group_name (col ++ SEPARATOR ++ rest))
        = col).
Proof.
  intros Hg. unfold column_name_of, make_column_id. split.
  - intros col Hcol. rewrite has_substr_app.
    rewrite split_str_first.
    + by rewrite (split_str_none _ _ Hcol).
    + exact SEPARATOR_nonempty.
    + intros a1 c a2. by apply separator_not_in_hyphen_free.
  - intros col rest Hcol. rewrite has_substr_app.
    rewrite split_str_first.
    + rewrite split_str_first; [done|exact SEPARATOR_nonempty|].
      intros a1 c a2. by apply separator_not_in_hyphen_free.
    + exact SEPARATOR_nonempty.
    + intros a1 c a2. by apply separator_not_in_hyphen_free.
Qed.

Lemma column_name_of_make_column_id_witness :
  column_name_of (make_column_id (py "Column Group 1") (py "Brand"))
  = py "Brand"
  /\ column_name_of
       (make_column_id (py "Column Group 1") (py "Sub" ++ SEPARATOR ++ py "Brand"))
     = py "Sub".
Proof.
  destruct (column_name_of_make_column_id (py "Column Group 1") eq_refl)
    as [Hname Hcut].
  split.
  - apply Hname. reflexivity.
  - apply Hcut. reflexivity.
Defined.

Lemma replace_char_take n a b s :
  take n (replace_char a b s) = replace_char a b (take n s).
Proof. unfold replace_char. symmetry. apply fmap_take. Qed.

Lemma safe_sheet_name_take column_id :
  safe_sheet_name column_id
  = replace_char HYPHEN UNDERSCORE
      (replace_char COLON UNDERSCORE
         (replace_char SPACE UNDERSCORE (take 31 column_id))).
Proof. unfold safe_sheet_name. by rewrite !replace_char_take. Qed.

Lemma replace_char_elem a b c s :
  c ∈ replace_char a b s -> c = b \/ (c <> a /\ c ∈ s).
Proof.
  unfold replace_char. intros Hc. apply list_elem_of_In, in_map_iff in Hc.
  destruct Hc as (x & <- & Hx%list_elem_of_In).
  destruct (N.eqb_spec x a); [by left|by right].
Qed.

Lemma replace_char_id a b s : a ∉ s -> replace_char a b s = s.
Proof.
  unfold replace_char. induction s as [|c s IH]; [done|].
  rewrite not_elem_of_cons. intros [Hne Hs]. simpl.
  destruct (N.eqb_spec c a); [congruence|]. by rewrite IH.
Qed.

Lemma safe_sheet_name_elem c column_id :
  c ∈ safe_sheet_name column_id ->
  c = UNDERSCORE
  \/ (c <> HYPHEN /\ c <> COLON /\ c <> SPACE /\ c ∈ column_id).
Proof.
  rewrite safe_sheet_name_take.
  intros [->|[Hh [->|[Hc [->|[Hs Hin]]%replace_char_elem]]%replace_char_elem]]%replace_char_elem;
    try by left.
  right. repeat split; try done. by apply (subseteq_take 31 column_id).
Qed.

(** X16: the sheet name of a column id has the length of the id, at most
    31; it holds no space, colon or hyphen; and it is a sheet name of
    itself. *)
Theorem safe_sheet_name_normal_form (column_id : str) :
  length (safe_sheet_name column_id) = (31 `min` length column_id)%nat
  /\ (SPACE ∉ safe_sheet_name column_id)
  /\ (COLON ∉ safe_sheet_name column_id)
  /\ (HYPHEN ∉ safe_sheet_name column_id)
  /\ safe_sheet_name (safe_sheet_name column_id) = safe_sheet_name column_id.
Proof.
  assert (Hlen : length (safe_sheet_name column_id)
                 = (31 `min` length column_id)%nat).
  { unfold safe_sheet_name, replace_char.
    by rewrite length_take, !length_map. }
  assert (Hs : SPACE ∉ safe_sheet_name column_id).
  { intros [H|(_ & _ & H & _)]%safe_sheet_name_elem; done. }
  assert (Hc : COLON ∉ safe_sheet_name column_id).
  { intros [H|(_ & H & _)]%safe_sheet_name_elem; done. }
  assert (Hh : HYPHEN ∉ safe_sheet_name column_id).
  { intros [H|(H & _)]%safe_sheet_name_elem; done. }
  split; [exact Hlen|]. split; [exact Hs|]. split; [exact Hc|].
  split; [exact Hh|].
  rewrite (safe_sheet_name_take (safe_sheet_name column_id)).
  rewrite take_ge by lia.
  rewrite (replace_char_id SPACE) by exact Hs.
  rewrite (replace_char_id COLON) by exact Hc.
  by rewrite (replace_char_id HYPHEN) by exact Hh.
Qed.

(** X17: the sheet name depends on the first 31 characters of the column
    id only: two column ids that agree there get the same sheet name. *)
Theorem safe_sheet_name_prefix (column_id1 column_id2 : str) :
  take 31 column_id1 = take 31 column_id2 ->
  safe_sheet_name column_id1 = safe_sheet_name column_id2.
Proof. intros H. by rewrite !safe_sheet_name_take, H. Qed.

Lemma safe_sheet_name_prefix_witness :
  make_column_id (py "Column Group 1") (py "Product Brand Name")
  <> make_column_id (py "Column Group 1") (py "Product Brand Owner")
  /\ safe_sheet_name
       (make_column_id (py "Column Group 1") (py "Product Brand Name"))
     = safe_sheet_name
         (make_column_id (py "Column Group 1") (py "Product Brand Owner")).
Proof.
  split; [done|].
  apply safe_sheet_name_prefix. reflexivity.
Defined.

(** The dictionary built by successive assignments answers with the last
    entry of the key. *)
Lemma value_mapping_fold v ms d :
  dict_get v
    (fold_left
       (fun value_mapping item =>
          dict_set (brand_name item) (classified_as item) value_mapping)
       ms d)
  = match last (filter (fun e => brand_name e = v) ms) with
    | Some e => Some (classified_as e)
    | None => dict_get v d
    end.
Proof.
  revert d. induction ms as [|e ms IH]; intros d; [done|].
  cbn [fold_left]. rewrite IH, filter_cons.
  destruct (decide (brand_name e = v)) as [Heq|Hne].
  - rewrite last_cons.
    destruct (last (filter (fun e => brand_name e = v) ms)); [done|].
    by rewrite <- Heq, dict_get_set_eq.
  - destruct (last (filter (fun e => brand_name e = v) ms)); [done|].
    by rewrite dict_get_set_ne.
Qed.

Lemma parse_mappings_original_shape text e :
  e ∈ parse_mappings text ->
  brand_name e <> [] /\ strip (brand_name e) = brand_name e
  /\ contains EQUALS (brand_name e) = false
  /\ contains LF (brand_name e) = false.
Proof.
  intros (line & Hline & Hspec)%parse_mappings_elem.
  pose proof (split_fields_no_sep LF text) as Hno.
  rewrite Forall_forall in Hno. specialize (Hno line Hline).
  apply spec_parse_line_Some in Hspec
    as (l & r & -> & Hl & Ho & Hc & ->).
  rewrite contains_app in Hno. apply orb_false_iff in Hno as [Hnl _].
  simpl. repeat split; try done; try apply strip_idem; by apply contains_strip.
Qed.

(** X18: one text cell of the standardized column.  The cell becomes the
    canonical value of the last line of the mapping text whose original
    value is the cell; a cell that is the original value of no line is
    left as it is. *)
Theorem standardized_value_last_wins (mapping_output value : str) :
  standardized_value mapping_output value
  = match last (filter (fun e => brand_name e = value)
                       (parse_mappings mapping_output)) with
    | Some e => classified_as e
    | None => value
    end.
Proof.
  unfold standardized_value, value_mapping. rewrite value_mapping_fold.
  by destruct (last _).
Qed.

(** X19: a cell that is empty, that starts or ends with white space, or
    that holds an equals sign or a line feed is never changed, whatever
    the mapping text. *)
Theorem standardized_value_untouched (mapping_output value : str) :
  value = [] \/ strip value <> value
  \/ contains EQUALS value = true \/ contains LF value = true ->
  standardized_value mapping_output value = value.
Proof.
  intros Hv. unfold standardized_value, value_mapping.
  rewrite value_mapping_fold.
  destruct (last _) as [e|] eqn:He; [|done]. exfalso.
  apply last_Some_elem_of, list_elem_of_filter in He as [Heq He].
  apply parse_mappings_original_shape in He as (H1 & H2 & H3 & H4).
  rewrite Heq in H1, H2, H3, H4.
  destruct Hv as [Hv|[Hv|[Hv|Hv]]]; congruence.
Qed.

Lemma standardized_value_untouched_witness :
  standardized_value (py "Pepsi = PepsiCo") (py "Pepsi") = py "PepsiCo"
  /\ standardized_value (py "Pepsi = PepsiCo") (py "Pepsi ") = py "Pepsi ".
Proof.
  split; [reflexivity|].
  apply standardized_value_untouched. right. left. vm_compute. discriminate.
Defined.

(** ** Code fences around the clustering answer *)

Lemma starts_with_cons a p b s :
  starts_with (a :: p) (b :: s) = (a =? b) && starts_with p s.
Proof. done. Qed.

Lemma contains_cons c d s : contains c (d :: s) = (c =? d) || contains c s.
Proof. done. Qed.

(** A pattern whose first character does not occur in [a] starts at no
    position of [a]. *)
Lemma no_head_nomatch c p a rest a1 d a2 :
  contains c a = false -> a = a1 ++ d :: a2 ->
  starts_with (c :: p) (d :: a2 ++ rest) = false.
Proof.
  intros Ha ->. rewrite contains_app, contains_cons in Ha.
  apply orb_false_iff in Ha as [_ Ha]. apply orb_false_iff in Ha as [Hd _].
  by rewrite starts_with_cons, Hd.
Qed.

Lemma has_substr_no_head c p a rest :
  contains c a = false ->
  has_substr (c :: p) (a ++ rest) = has_substr (c :: p) rest.
Proof.
  induction a as [|d a IH]; [done|].
  rewrite contains_cons. intros [Hd Ha]%orb_false_iff.
  change ((d :: a) ++ rest) with (d :: a ++ rest).
  by rewrite has_substr_cons, starts_with_cons, Hd, IH.
Qed.

Lemma has_substr_absent c p s :
  contains c s = false -> has_substr (c :: p) s = false.
Proof.
  intros Hs. rewrite <- (app_nil_r s). by rewrite has_substr_no_head.
Qed.

Lemma starts_with_split p s :
  starts_with p s = true -> exists r, s = p ++ r.
Proof.
  revert s. induction p as [|a p IH]; intros s; [by exists s|].
  destruct s as [|b s]; [done|].
  rewrite starts_with_cons. intros [Hab Hp]%andb_true_iff.
  apply N.eqb_eq in Hab as ->. destruct (IH _ Hp) as [r ->]. by exists r.
Qed.

Lemma starts_with_app_true p a w :
  starts_with p a = true -> starts_with p (a ++ w) = true.
Proof.
  intros [r ->]%starts_with_split. rewrite <- app_assoc.
  apply starts_with_app.
Qed.

Lemma rstrip_prefix s : exists w, s = rstrip s ++ w.
Proof.
  induction s as [|c s [w IH]]; [by exists []|]. simpl.
  destruct (rstrip s) as [|d r] eqn:Hr.
  - destruct (isspace c); [by exists (c :: s)|]. exists w.
    simpl. by rewrite IH at 1.
  - exists w. simpl. by rewrite IH at 1.
Qed.

Lemma starts_with_rstrip p s :
  starts_with p s = false -> starts_with p (rstrip s) = false.
Proof.
  intros Hs. destruct (starts_with p (rstrip s)) eqn:Hr; [|done].
  destruct (rstrip_prefix s) as [w Hw].
  apply (starts_with_app_true _ _ w) in Hr. rewrite <- Hw in Hr. congruence.
Qed.

Lemma FENCE_cons : FENCE = BACKTICK :: FENCE_TAIL.
Proof. done. Qed.

Lemma FENCE_JSON_cons : FENCE_JSON = BACKTICK :: (FENCE_TAIL ++ py "json").
Proof. done. Qed.

(** Trimming an answer whose middle stands between backticks trims the
    text before and the text after. *)
Lemma strip_around_fence before m after :
  strip (before ++ (BACKTICK :: m) ++ FENCE ++ after)
  = lstrip before ++ (BACKTICK :: m) ++ FENCE ++ rstrip after.
Proof.
  change (before ++ (BACKTICK :: m) ++ FENCE ++ after)
    with (before ++ BACKTICK :: (m ++ FENCE_TAIL ++ BACKTICK :: after)).
  rewrite strip_app_keep by done.
  rewrite (app_assoc m FENCE_TAIL (BACKTICK :: after)).
  rewrite rstrip_app_keep by done.
  by rewrite <- app_assoc.
Qed.

Lemma starts_with_absent c p s :
  contains c s = false -> starts_with (c :: p) s = false.
Proof.
  destruct s as [|d s]; [done|].
  rewrite contains_cons, starts_with_cons.
  by intros [-> _]%orb_false_iff.
Qed.

Lemma starts_with_app_cancel p q s :
  starts_with (p ++ q) (p ++ s) = starts_with q s.
Proof.
  induction p as [|c p IH]; [done|]. simpl. by rewrite N.eqb_refl.
Qed.

(** A pattern without [c] that is no prefix of [body] is no prefix of
    [body] followed by [c]. *)
Lemma starts_with_app_other p body c rest :
  contains c p = false -> starts_with p body = false ->
  starts_with p (body ++ c :: rest) = false.
Proof.
  revert body. induction p as [|a p IH]; intros body; [done|].
  rewrite contains_cons. intros [Hca Hp]%orb_false_iff.
  destruct body as [|b body].
  - intros _. change ([] ++ c :: rest) with (c :: rest).
    by rewrite starts_with_cons, N.eqb_sym, Hca.
  - change ((b :: body) ++ c :: rest) with (b :: body ++ c :: rest).
    rewrite !starts_with_cons.
    destruct (a =? b); [|done]. simpl. by apply IH.
Qed.

Lemma has_substr_fence_json_after a :
  contains BACKTICK a = false -> starts_with (py "json") a = false ->
  has_substr FENCE_JSON (FENCE ++ a) = false.
Proof.
  intros Ha Hj.
  change (FENCE ++ a) with (BACKTICK :: BACKTICK :: BACKTICK :: a).
  rewrite !has_substr_cons, FENCE_JSON_cons.
  rewrite (has_substr_absent BACKTICK (FENCE_TAIL ++ py "json") a Ha).
  change (FENCE_TAIL ++ py "json") with (BACKTICK :: BACKTICK :: py "json").
  rewrite !starts_with_cons, !N.eqb_refl, Hj.
  by rewrite !(starts_with_absent BACKTICK _ a Ha).
Qed.

Lemma strip_fenced opening before body after :
  opening = FENCE_JSON \/ opening = FENCE ->
  strip (before ++ opening ++ body ++ FENCE ++ after)
  = lstrip before ++ opening ++ body ++ FENCE ++ rstrip after.
Proof.
  intros [->| ->].
  - rewrite (app_assoc FENCE_JSON body (FENCE ++ after)).
    rewrite (app_assoc FENCE_JSON body (FENCE ++ rstrip after)).
    exact (strip_around_fence before ((FENCE_TAIL ++ py "json") ++ body) after).
  - rewrite (app_assoc FENCE body (FENCE ++ after)).
    rewrite (app_assoc FENCE body (FENCE ++ rstrip after)).
    exact (strip_around_fence before (FENCE_TAIL ++ body) after).
Qed.

Lemma FENCE_nonempty : FENCE <> [].
Proof. done. Qed.

Lemma FENCE_JSON_nonempty : FENCE_JSON <> [].
Proof. done. Qed.

Lemma fence_nomatch a rest a1 d a2 :
  contains BACKTICK a = false -> a = a1 ++ d :: a2 ->
  starts_with FENCE (d :: a2 ++ rest) = false.
Proof. apply (no_head_nomatch BACKTICK FENCE_TAIL). Qed.

Lemma fence_json_nomatch a rest a1 d a2 :
  contains BACKTICK a = false -> a = a1 ++ d :: a2 ->
  starts_with FENCE_JSON (d :: a2 ++ rest) = false.
Proof. apply (no_head_nomatch BACKTICK (FENCE_TAIL ++ py "json")). Qed.

Lemma has_substr_plain_fence body a :
  contains BACKTICK body = false -> contains BACKTICK a = false ->
  starts_with (py "json") body = false -> starts_with (py "json") a = false ->
  has_substr FENCE_JSON (FENCE ++ body ++ FENCE ++ a) = false.
Proof.
  intros Hb Ha Hjb Hja.
  assert (Htail : has_substr FENCE_JSON (body ++ FENCE ++ a) = false).
  { rewrite FENCE_JSON_cons, has_substr_no_head by done.
    rewrite <- FENCE_JSON_cons. by apply has_substr_fence_json_after. }
  change (FENCE ++ body ++ FENCE ++ a)
    with (BACKTICK :: BACKTICK :: BACKTICK :: body ++ FENCE ++ a).
  rewrite !has_substr_cons, Htail.
  destruct body as [|d body]; [by vm_compute|].
  rewrite contains_cons in Hb. apply orb_false_iff in Hb as [Hd Hb].
  pose proof (starts_with_app_other (py "json") (d :: body) BACKTICK
                (FENCE_TAIL ++ a) eq_refl Hjb) as Hj.
  change ((d :: body) ++ BACKTICK :: FENCE_TAIL ++ a)
    with (d :: body ++ FENCE ++ a) in Hj.
  rewrite FENCE_JSON_cons.
  change (FENCE_TAIL ++ py "json") with (BACKTICK :: BACKTICK :: py "json").
  change ((d :: body) ++ FENCE ++ a) with (d :: body ++ FENCE ++ a).
  rewrite (starts_with_cons BACKTICK _ BACKTICK (BACKTICK :: BACKTICK :: _)).
  rewrite (starts_with_cons BACKTICK _ BACKTICK (BACKTICK :: _)).
  rewrite (starts_with_cons BACKTICK _ BACKTICK (d :: _)).
  rewrite Hj.
  rewrite (starts_with_cons BACKTICK _ BACKTICK (BACKTICK :: d :: _)).
  rewrite (starts_with_cons BACKTICK _ BACKTICK (d :: _)).
  rewrite (starts_with_cons BACKTICK (py "json") d).
  rewrite (starts_with_cons BACKTICK _ BACKTICK (d :: _)).
  rewrite (starts_with_cons BACKTICK (BACKTICK :: py "json") d).
  rewrite Hd, !N.eqb_refl. done.
Qed.

(** The field that the two splits keep of what follows the opening
    json fence. *)
Lemma fenced_json_field body a :
  contains BACKTICK body = false -> contains BACKTICK a = false ->
  exists field more,
    split_str FENCE_JSON (body ++ FENCE ++ a) = field :: more
    /\ exists more', split_str FENCE field = body :: more'.
Proof.
  intros Hb Ha.
  destruct (starts_with (py "json") a) eqn:Hj.
  - apply starts_with_split in Hj as [a' ->].
    exists body, (split_str FENCE_JSON a'). split.
    + change (FENCE ++ py "json" ++ a') with (FENCE_JSON ++ a').
      apply split_str_first; [exact FENCE_JSON_nonempty|].
      intros a1 d a2. by apply fence_json_nomatch.
    + exists []. apply split_str_none.
      rewrite FENCE_cons. by apply has_substr_absent.
  - exists (body ++ FENCE ++ a), []. split.
    + apply split_str_none.
      rewrite FENCE_JSON_cons, has_substr_no_head by done.
      rewrite <- FENCE_JSON_cons. by apply has_substr_fence_json_after.
    + exists (split_str FENCE a).
      apply split_str_first; [exact FENCE_nonempty|].
      intros a1 d a2. by apply fence_nomatch.
Qed.

(** X20: what the clustering parser hands to the JSON decoder.  For an
    answer made of a text, a fenced body and a text, none of them with a
    backtick: when the opening fence is tagged json the body is handed
    over as it is; when the fence is plain, and neither the body nor the
    text after it starts with json, the body is handed over as
    it is; and an answer without a backtick is handed over trimmed. *)
Theorem strip_code_fences_body (before body after : str) :
  contains BACKTICK before = false ->
  contains BACKTICK body = false ->
  contains BACKTICK after = false ->
  strip_code_fences (before ++ FENCE_JSON ++ body ++ FENCE ++ after) = body
  /\ (starts_with (py "json") body = false ->
      starts_with (py "json") after = false ->
      strip_code_fences (before ++ FENCE ++ body ++ FENCE ++ after) = body)
  /\ strip_code_fences body = strip body.
Proof.
  intros Hbefore Hbody Hafter.
  pose proof (contains_lstrip _ _ Hbefore) as Hb.
  pose proof (contains_rstrip _ _ Hafter) as Ha.
  unfold strip_code_fences. cbv zeta. split; [|split].
  - rewrite (strip_fenced FENCE_JSON) by (by left).
    rewrite has_substr_app.
    rewrite split_str_first;
      [|exact FENCE_JSON_nonempty
       |intros a1 d a2; by apply fence_json_nomatch].
    destruct (fenced_json_field body (rstrip after) Hbody Ha)
      as (field & more & -> & more' & Hfield).
    change ((lstrip before :: field :: more) !! 1%nat) with (Some field).
    change (default [] (Some field)) with field.
    by rewrite Hfield.
  - intros Hjb Hja. apply starts_with_rstrip in Hja.
    rewrite (strip_fenced FENCE) by (by right).
    rewrite FENCE_JSON_cons, has_substr_no_head by done.
    rewrite <- FENCE_JSON_cons, has_substr_plain_fence by done.
    rewrite has_substr_app.
    rewrite split_str_first;
      [|exact FENCE_nonempty|intros a1 d a2; by apply fence_nomatch].
    rewrite split_str_first;
      [|exact FENCE_nonempty|intros a1 d a2; by apply fence_nomatch].
    done.
  - pose proof (contains_strip _ _ Hbody) as Hs.
    rewrite FENCE_JSON_cons, has_substr_absent by done.
    by rewrite FENCE_cons, has_substr_absent by done.
Qed.

Lemma strip_code_fences_body_witness :
  strip_code_fences
    (py "Here are the groups: " ++ FENCE_JSON ++ py "[[1]]" ++ FENCE
       ++ py " Done.")
  = py "[[1]]".
Proof.
  apply (strip_code_fences_body (py "Here are the groups: ") (py "[[1]]")
           (py " Done.")); reflexivity.
Defined.
